(** * BRASIL_PARALELO service plugin: a shallow embedding

    Source: [src/unshackle/services/BRASIL_PARALELO/__init__.py].

    The plugin talks to a GraphQL endpoint, downloads one DASH manifest,
    parses it with [xml.etree.ElementTree] and pulls a key id and a
    Widevine protection header out of the tree.  The embedding keeps the
    Python data as it is at run time:

    - JSON values as decoded by [resp.json()] ([Json.json]), with Python's
      truth-value rules;
    - ElementTree elements ([ET.Element]): the tag and the attribute keys
      are the strings ElementTree stores (Clark notation [{uri}local] for
      namespaced names), [attrib] is a dictionary, [text] is [None] or a
      string;
    - exceptions as an error type, and the calls made on the HTTP session
      and on the document tree as a chronological trace threaded through a
      small state-and-error monad ([Eff.M]).

    The [logging] calls carry no control flow and are left out. *)

From Stdlib Require Import ZArith Ascii String Floats.PrimFloat.
From stdpp Require Import base option list strings gmap.

Set Default Proof Using "Type".

(** ** Python truth values of [Optional[str]] *)

Module Py.

(** [bool(x)] for [x : Optional[str]]: [None] and [""] are falsy. *)
Definition truthy (x : option string) : bool :=
  match x with
  | Some s => negb (String.eqb s "")
  | None => false
  end.

(** [a or b] *)
Definition or_else (a b : option string) : option string :=
  if truthy a then a else b.

End Py.

(** ** JSON values, as [json.loads] builds them *)

Module Json.

#[warnings="-register-all"] Inductive json :=
| JNull
| JBool (b : bool)
| JInt (z : Z)
| JFloat (f : float)
| JStr (s : string)
| JArr (l : list json)
| JObj (m : gmap string json).

(** [bool(j)] *)
Definition truthy (j : json) : bool :=
  match j with
  | JNull => false
  | JBool b => b
  | JInt z => negb (z =? 0)%Z
  | JFloat f => negb (PrimFloat.eqb f 0%float)
  | JStr s => negb (String.eqb s "")
  | JArr l => match l with [] => false | _ :: _ => true end
  | JObj m => negb (bool_decide (m = ∅))
  end.

(** [j == s] for a string literal [s] *)
Definition eq_str (j : json) (s : string) : bool :=
  match j with
  | JStr s' => String.eqb s' s
  | _ => false
  end.

End Json.

(** ** Exceptions *)

Module Exn.
Import Json.

(** An f-string: literal text, possibly followed by the [repr] of a
    JSON value (kept as the value itself). *)
Inductive fstr :=
| FText (s : string)
| FData (s : string) (d : json).

Inductive exn :=
| ValueError (msg : fstr)
| KeyError (msg : fstr)
| Exception (msg : fstr)
| AttributeError      (* [.get] on a value that is not a dict *)
| TypeError           (* [in] on a value that is not a container *)
| IndexError          (* [tracks[0]] on an empty list *)
| SyntaxError         (* ElementPath: prefix not found in prefix map *)
| JSONDecodeError (msg : string)
| HostError (msg : string).  (* raised inside the host framework *)

(** [j.get(k)]: [None] (JSON null) when the key is missing;
    [AttributeError] when [j] is not a dictionary. *)
Definition dict_get (j : json) (k : string) : exn + json :=
  match j with
  | JObj m => inr (default JNull (m !! k))
  | _ => inl AttributeError
  end.

(** [j.get(k, {})] *)
Definition dict_get_or (j : json) (k : string) : exn + json :=
  match j with
  | JObj m => inr (default (JObj ∅) (m !! k))
  | _ => inl AttributeError
  end.

(** [k in j]: key membership for a dictionary, element membership for a
    list, substring test for a string, [TypeError] otherwise. *)
Definition contains (k : string) (j : json) : exn + bool :=
  match j with
  | JObj m => inr (bool_decide (is_Some (m !! k)))
  | JArr l => inr (existsb (λ x, eq_str x k) l)
  | JStr s => inr (bool_decide (is_Some (String.index 0 k s)))
  | _ => inl TypeError
  end.

(** [j[k]] for a string key *)
Definition subscript (j : json) (k : string) : exn + json :=
  match j with
  | JObj m => match m !! k with
              | Some v => inr v
              | None => inl (KeyError (FText k))
              end
  | _ => inl TypeError
  end.

End Exn.

(** ** Path expressions *)

Module ET_path.

(** A qualified name as written in a path, [prefix:local]. *)
Record qname := QName { q_prefix : string; q_local : string }.

(** The two path shapes the plugin uses:
    [.//p:l], [.//p:l[@k='v']] and the child step [p:l]. *)
Inductive xpath :=
| Descendant (q : qname) (pred : option (string * string))
| Child (q : qname).

End ET_path.

(** ** The effect monad: exceptions and a trace of library calls *)

Module Eff.
Import Json Exn ET_path.

(** The two GraphQL documents the plugin posts. *)
Inductive gql_query := MediaMetadataQuery | MediaSourceQuery.

Inductive event :=
| EvPost (url : string) (q : gql_query) (media_id : string) (slug : json)
| EvGet (url : string)
| EvFromstring (text : string)
| EvFindall (path : xpath)
| EvFind (path : xpath)
| EvParseManifest (url : string).

Definition trace := list event.

Definition M (A : Type) : Type := trace → (exn + A) * trace.

Definition ret {A} (a : A) : M A := λ tr, (inr a, tr).

Definition bind {A B} (m : M A) (k : A → M B) : M B :=
  λ tr, match m tr with
        | (inl e, tr') => (inl e, tr')
        | (inr a, tr') => k a tr'
        end.

Definition raise {A} (e : exn) : M A := λ tr, (inl e, tr).

Definition emit (ev : event) : M unit := λ tr, (inr tt, tr ++ [ev]).

(** A pure step that may raise. *)
Definition lift {A} (r : exn + A) : M A := λ tr, (r, tr).

#[global] Instance M_ret : MRet M := @ret.
#[global] Instance M_bind : MBind M := λ A B k m, bind m k.

(** The result of a run and the trace it leaves, from an empty trace. *)
Definition result {A} (m : M A) : exn + A := (m []).1.
Definition calls {A} (m : M A) : trace := (m []).2.

End Eff.

(** ** ElementTree elements and the path queries the plugin issues *)

Module ET.
Import ET_path.

(** An [Element] as [ET.fromstring] builds it.  [tag] and the keys of
    [attrib] are stored verbatim: a namespaced name is the single string
    [{uri}local]. *)
#[warnings="-register-all"] Inductive Element :=
| Elem (tag : string) (attrib : gmap string string)
       (text : option string) (children : list Element).

Definition tag (e : Element) : string :=
  match e with Elem t _ _ _ => t end.
Definition attrib (e : Element) : gmap string string :=
  match e with Elem _ a _ _ => a end.
Definition text (e : Element) : option string :=
  match e with Elem _ _ x _ => x end.
Definition children (e : Element) : list Element :=
  match e with Elem _ _ _ cs => cs end.

(** [e.get(key)]: a plain dictionary lookup, no prefix resolution. *)
Definition get (e : Element) (key : string) : option string :=
  attrib e !! key.

(** [e.iter()]: the element, then its subtrees, in document order. *)
Fixpoint iter (e : Element) : list Element :=
  match e with
  | Elem _ _ _ cs =>
      e :: (fix iter_all (l : list Element) : list Element :=
              match l with
              | [] => []
              | c :: l' => iter c ++ iter_all l'
              end) cs
  end.

(** The elements [.//] ranges over: every descendant, not the context
    element itself. *)
Definition descendants (e : Element) : list Element :=
  flat_map iter (children e).

(** Prefix resolution of a path name against the [namespaces] argument. *)
Definition expand (ns : gmap string string) (q : qname) : option string :=
  uri ← ns !! q_prefix q;
  Some ("{" +:+ uri +:+ "}" +:+ q_local q).

(** [[@k='v']] *)
Definition holds (pred : option (string * string)) (e : Element) : bool :=
  match pred with
  | None => true
  | Some (k, v) => bool_decide (get e k = Some v)
  end.

Definition has_tag (t : string) (e : Element) : bool := String.eqb (tag e) t.

(** [e.findall(path, namespaces)]; [None] when a prefix is unbound. *)
Definition findall (e : Element) (p : xpath) (ns : gmap string string)
  : option (list Element) :=
  match p with
  | Descendant q pred =>
      t ← expand ns q;
      Some (List.filter (λ d, has_tag t d && holds pred d) (descendants e))
  | Child q =>
      t ← expand ns q;
      Some (List.filter (has_tag t) (children e))
  end.

(** [e.find(path, namespaces)]: the first match or [None]. *)
Definition find (e : Element) (p : xpath) (ns : gmap string string)
  : option (option Element) :=
  l ← findall e p ns;
  Some (head l).

(** Attribute names as the XML parser hands them over: a name without a
    colon (no namespace) or a Clark name starting with a brace.  A
    prefixed name never survives parsing: its prefix is either resolved
    or reported as unbound. *)
Definition parsed_name (k : string) : bool :=
  match k with
  | String "{"%char _ => true
  | _ => negb (bool_decide (":"%char ∈ list_ascii_of_string k))
  end.

Definition parsed_attrib (e : Element) : Prop :=
  map_Forall (λ k _, parsed_name k = true) (attrib e).

(** Every element below and including [e] has parser-made attributes. *)
Definition parsed (e : Element) : Prop := Forall parsed_attrib (iter e).

End ET.

(** ** The service *)

Module BRASIL_PARALELO.
Import Json Exn ET_path Eff ET.

(** *** Objects of the host framework, as the plugin fills them *)

(** Modelled from the spec: the host framework's [Movie], [Movies],
    [Series], [Widevine] and [Track] classes are outside the source file;
    each is kept as the data the plugin hands to its constructor. *)
Record Movie := {
  movie_id : string;
  movie_service : string;
  movie_name : json;
  movie_year : option Z;
  movie_duration : json;
}.

Record Season := { season_name : json }.

Inductive Titles :=
| Movies (l : list Movie)
| Series (id : string) (title : json) (seasons : list Season).

Record Widevine := {
  drm_key : option string;
  drm_license_url : string;
  drm_pssh : option string;
  drm_content_id : json;
  drm_kid : option string;
}.

Record Track (T : Type) := { track_data : T; track_drm : option Widevine }.
Arguments track_data {T} _.
Arguments track_drm {T} _.

(** *** The instance and its surroundings *)

(** [self]: the fields the modelled methods read or write.  [slug] is
    absent until [get_titles] has stored it. *)
Record Service := {
  title_id : option string;
  is_movie : bool;
  endpoint_metadata : string;   (* self.config["endpoints"]["metadata"] *)
  slug : option json;
}.

Inductive post_reply :=
| PostFailed (e : string)    (* requests.RequestException *)
| PostNotJson (e : string)   (* resp.json() fails *)
| PostJson (data : json).

Inductive get_reply :=
| GetFailed (e : string)     (* requests.RequestException *)
| GetText (body : string).

(** What lies outside the file: the HTTP session, the XML parser
    ([inl] is the text of an [ET.ParseError]), [str()] of a JSON value
    that is not a string, and the host's manifest parser. *)
Record World (T : Type) := {
  http_post : string → gql_query → string → json → post_reply;
  http_get : string → get_reply;
  fromstring : string → string + Element;
  py_str : json → string;
  parse_manifest : string → exn + list (Track T);
}.
Arguments http_post {T} _.
Arguments http_get {T} _.
Arguments fromstring {T} _.
Arguments py_str {T} _.
Arguments parse_manifest {T} _.

(** [f"{j}"] *)
Definition fmt {T} (w : World T) (j : json) : string :=
  match j with
  | JStr s => s
  | _ => py_str w j
  end.

(** [title_id = title_id or self.title_id], then the guard on it. *)
Definition effective_title_id (self : Service) (arg : option string)
  : M string :=
  match Py.or_else arg (title_id self) with
  | Some t =>
      if Py.truthy (Some t) then ret t
      else raise (ValueError (FText "Nenhum title_id fornecido."))
  | None => raise (ValueError (FText "Nenhum title_id fornecido."))
  end.

(** [session.post], [raise_for_status] and [resp.json()]; [wrap] builds
    the exception raised by the [except] clause. *)
Definition post_json {T} (w : World T) (url : string) (q : gql_query)
    (media_id : string) (slug : json) (wrap : string → exn) : M json :=
  emit (EvPost url q media_id slug);;
  match http_post w url q media_id slug with
  | PostFailed e => raise (wrap e)
  | PostNotJson e => raise (JSONDecodeError e)
  | PostJson data => ret data
  end.

(** [if "errors" in data: raise ValueError(f"...{data['errors']}")] *)
Definition check_errors (prefix : string) (data : json) : M unit :=
  has ← lift (contains "errors" data);
  if (has : bool) then
    errs ← lift (subscript data "errors");
    raise (ValueError (FData prefix errs))
  else ret ().

(** *** [get_titles] *)

Definition get_titles {T} (w : World T) (self : Service)
    (arg : option string) : M (Titles * Service) :=
  tid ← effective_title_id self arg;
  let url := endpoint_metadata self in
  data ← post_json w url MediaMetadataQuery tid (JStr "entre-lobos")
    (λ e, Exception (FText ("Falha ao obter metadados para title_id "
                             +:+ tid +:+ ": " +:+ e)));
  check_errors "Erros na resposta da API: " data;;
  d ← lift (dict_get_or data "data");
  media ← lift (dict_get d "media");
  if negb (truthy media) then
    raise (ValueError (FData "Nenhum dado de mídia retornado pela API: " data))
  else
  name ← lift (dict_get media "name");
  if negb (truthy name) then
    raise (KeyError (FData "Chave 'name' não encontrada na resposta da API: " data))
  else
  playlist ← lift (dict_get_or media "playlist");
  type ← lift (dict_get_or playlist "type");
  content_type ← lift (dict_get type "name");
  duration ← lift (dict_get media "duration");
  playlist' ← lift (dict_get_or media "playlist");
  slug_v ← lift (dict_get playlist' "slug");
  if negb (truthy slug_v) then
    raise (ValueError (FData "Chave 'playlist.slug' não encontrada na resposta da API: " data))
  else
  let self' := {| title_id := title_id self; is_movie := is_movie self;
                  endpoint_metadata := endpoint_metadata self;
                  slug := Some slug_v |} in
  if is_movie self || eq_str content_type "movie" then
    let movie := {| movie_id := tid; movie_service := "BRASIL_PARALELO";
                    movie_name := name; movie_year := None;
                    movie_duration := duration |} in
    ret (Movies [movie], self')
  else
    playlist'' ← lift (dict_get_or media "playlist");
    pname ← lift (dict_get playlist'' "name");
    ret (Series tid name [ {| season_name := pname |} ], self').

(** *** [get_tracks] *)

Definition namespaces : gmap string string :=
  {[ "cenc" := "urn:mpeg:cenc:2013";
     "dash" := "urn:mpeg:dash:schema:mpd:2011" ]}.

Definition mp4protection_uri : string := "urn:mpeg:dash:mp4protection:2011".
Definition widevine_uri : string :=
  "urn:uuid:edef8ba9-79d6-4ace-a3c8-27dcd51d21ed".

Definition content_protection : qname := QName "dash" "ContentProtection".

(** [.//dash:ContentProtection[@schemeIdUri='urn:mpeg:dash:mp4protection:2011']] *)
Definition mp4protection_path : xpath :=
  Descendant content_protection (Some ("schemeIdUri", mp4protection_uri)).
(** [.//dash:ContentProtection[@schemeIdUri='urn:uuid:edef8ba9-...']] *)
Definition widevine_path : xpath :=
  Descendant content_protection (Some ("schemeIdUri", widevine_uri)).
(** [.//dash:ContentProtection] *)
Definition any_protection_path : xpath :=
  Descendant content_protection None.
(** [cenc:pssh] *)
Definition pssh_path : xpath := Child (QName "cenc" "pssh").

(** The key [cp.get] is called with. *)
Definition kid_key : string := "cenc:default_KID".

Definition root_findall (root : Element) (p : xpath) : M (list Element) :=
  emit (EvFindall p);;
  match findall root p namespaces with
  | Some l => ret l
  | None => raise SyntaxError
  end.

Definition cp_find (cp : Element) (p : xpath) : M (option Element) :=
  emit (EvFind p);;
  match find cp p namespaces with
  | Some r => ret r
  | None => raise SyntaxError
  end.

Definition default_stream_id : string := "d7137531-aab7-43f7-a15b-a64b0453b4ca".
Definition episode1_title_id : string := "62b0d862d12d4c0029f05602".
Definition episode1_stream_id : string := "79f73236-4c3a-4998-8f5d-c14d33a91c9f".

Definition stream_id_for (tid : string) : string :=
  if String.eqb tid episode1_title_id then episode1_stream_id
  else default_stream_id.

(** [f"https://stream.brasilparalelo.com.br/{content_id}/{stream_id}/mpd/stream.mpd"] *)
Definition manifest_url_for (content_id stream_id : string) : string :=
  "https://stream.brasilparalelo.com.br/" +:+ content_id +:+ "/"
    +:+ stream_id +:+ "/mpd/stream.mpd".

(** [session.get(manifest_url)], [raise_for_status], [.text] *)
Definition download_manifest {T} (w : World T) (manifest_url : string)
  : M string :=
  emit (EvGet manifest_url);;
  match http_get w manifest_url with
  | GetFailed e => raise (Exception (FText ("Falha ao obter manifest MPD: " +:+ e)))
  | GetText body => ret body
  end.

(** [root = ET.fromstring(manifest_xml)] under its [try]. *)
Definition parse_xml {T} (w : World T) (manifest_xml : string) : M Element :=
  emit (EvFromstring manifest_xml);;
  match fromstring w manifest_xml with
  | inl e => raise (ValueError (FText ("Falha ao parsear o manifest MPD XML: " +:+ e)))
  | inr root => ret root
  end.

(** The first loop: [kid = cp.get("cenc:default_KID")], leaving at the
    first truthy value.  [kid] is the value the variable holds so far. *)
Fixpoint kid_loop (cps : list Element) (kid : option string) : option string :=
  match cps with
  | [] => kid
  | cp :: rest =>
      let kid := get cp kid_key in
      if Py.truthy kid then kid else kid_loop rest kid
  end.

(** The second and third loops: [pssh_elem = cp.find("cenc:pssh")],
    [pssh = pssh_elem.text if pssh_elem is not None else None], leaving
    at the first truthy value. *)
Fixpoint pssh_loop (cps : list Element) (pssh : option string)
  : M (option string) :=
  match cps with
  | [] => ret pssh
  | cp :: rest =>
      pssh_elem ← cp_find cp pssh_path;
      let pssh := match pssh_elem with
                  | Some e => text e
                  | None => None
                  end in
      if Py.truthy pssh then ret pssh else pssh_loop rest pssh
  end.

Definition missing_protection (manifest_url : string) : exn :=
  ValueError (FText ("Não foi possível extrair kid ou pssh do manifest MPD: "
                     +:+ manifest_url)).

(** [kid = None] and the loop over the mp4protection elements. *)
Definition scan_kid (root : Element) : M (option string) :=
  cps ← root_findall root mp4protection_path;
  ret (kid_loop cps None).

(** The loop over the Widevine elements, entered with [pssh = None]. *)
Definition scan_widevine (root : Element) : M (option string) :=
  cps ← root_findall root widevine_path;
  pssh_loop cps None.

(** The loop over every [ContentProtection], entered with the value
    [pssh] has after the Widevine loop. *)
Definition scan_fallback (root : Element) (pssh : option string)
  : M (option string) :=
  cps ← root_findall root any_protection_path;
  pssh_loop cps pssh.

(** From [kid = None] to the guard [if not kid or not pssh]. *)
Definition extract_protection (manifest_url : string) (root : Element)
  : M (option string * option string) :=
  kid ← scan_kid root;
  pssh ← (if Py.truthy kid then scan_widevine root else ret None);
  pssh ← (if Py.truthy kid && negb (Py.truthy pssh)
          then scan_fallback root pssh else ret pssh);
  if negb (Py.truthy kid) || negb (Py.truthy pssh) then
    raise (missing_protection manifest_url)
  else ret (kid, pssh).

(** Parsing and extraction together: from the manifest text to the pair. *)
Definition extract {T} (w : World T) (manifest_url manifest_xml : string)
  : M (option string * option string) :=
  root ← parse_xml w manifest_xml;
  extract_protection manifest_url root.

Definition set_drm {T} (t : Track T) (d : Widevine) : Track T :=
  {| track_data := track_data t; track_drm := Some d |}.

Definition get_tracks {T} (w : World T) (self : Service)
    (arg : option string) : M (list (Track T)) :=
  tid ← effective_title_id self arg;
  let url := endpoint_metadata self in
  data ← post_json w url MediaSourceQuery tid
    (default (JStr "entre-lobos") (slug self))
    (λ e, Exception (FText ("Falha ao obter tracks para title_id "
                             +:+ tid +:+ ": " +:+ e)));
  check_errors "Erros na resposta da API para tracks: " data;;
  d ← lift (dict_get_or data "data");
  media ← lift (dict_get d "media");
  if negb (truthy media) then
    raise (ValueError (FData "Nenhum dado de mídia retornado pela API para tracks: " data))
  else
  source ← lift (dict_get_or media "source");
  content_id ← lift (dict_get source "id");
  if negb (truthy content_id) then
    raise (ValueError (FData "content_id não encontrado na resposta da API: " data))
  else
  let stream_id := stream_id_for tid in
  let manifest_url := manifest_url_for (fmt w content_id) stream_id in
  manifest_xml ← download_manifest w manifest_url;
  '(kid, pssh) ← extract w manifest_url manifest_xml;
  emit (EvParseManifest manifest_url);;
  tracks ← lift (parse_manifest w manifest_url);
  match tracks with
  | [] => raise IndexError
  | t :: rest =>
      ret (set_drm t {| drm_key := None;
                        drm_license_url := endpoint_metadata self;
                        drm_pssh := pssh;
                        drm_content_id := content_id;
                        drm_kid := kid |} :: rest)
  end.

(** *** [get_chapters] *)

Definition get_chapters {Chapter : Type} (self : Service)
    (arg : option string) : list Chapter :=
  [].

End BRASIL_PARALELO.

(** ** Vocabulary of the statements *)

Module Spec.
Import Json Exn ET_path Eff ET BRASIL_PARALELO.

(** The elements a path selects below [root], in document order. *)
Definition matches (root : Element) (p : xpath) : list Element :=
  default [] (findall root p namespaces).

(** The text of the [cenc:pssh] child of [cp], as [cp.find] and [.text]
    give it: [None] when there is no such child or it has no text. *)
Definition pssh_text (cp : Element) : option string :=
  match find cp pssh_path namespaces with
  | Some (Some e) => text e
  | _ => None
  end.

(** The value the KID lookup obtains from [cp]. *)
Definition kid_value (cp : Element) : option string := get cp kid_key.

Definition falsy (x : option string) : Prop := Py.truthy x = false.

(** Tags in Clark notation. *)
Definition pssh_tag : string := "{urn:mpeg:cenc:2013}pssh".
Definition protection_tag : string :=
  "{urn:mpeg:dash:schema:mpd:2011}ContentProtection".

(** The attribute key under which ElementTree stores [cenc:default_KID]
    of a parsed document. *)
Definition clark_default_KID : string := "{urn:mpeg:cenc:2013}default_KID".

(** A computation whose outcome does not depend on the trace it starts
    from, and which only appends to it. *)
Definition regular {A} (m : M A) : Prop :=
  ∀ tr, m tr = (result m, tr ++ calls m).

(** A regular computation all of whose calls satisfy [P]. *)
Definition only {A} (P : event → Prop) (m : M A) : Prop :=
  regular m ∧ Forall P (calls m).

(** Events that touch the document: parsing and tree queries. *)
Definition tree_event (ev : event) : bool :=
  match ev with
  | EvFromstring _ | EvFindall _ | EvFind _ => true
  | _ => false
  end.

(** Tree queries proper. *)
Definition search_event (ev : event) : bool :=
  match ev with
  | EvFindall _ | EvFind _ => true
  | _ => false
  end.

(** Strict lookup along a path of keys in nested JSON objects. *)
Fixpoint json_path (ks : list string) (j : json) : option json :=
  match ks with
  | [] => Some j
  | k :: ks' =>
      match j with
      | JObj m => m !! k ≫= json_path ks'
      | _ => None
      end
  end.

(** The reply to the metadata request of [get_titles]. *)
Definition metadata_reply {T} (w : World T) (self : Service) (tid : string)
  : post_reply :=
  http_post w (endpoint_metadata self) MediaMetadataQuery tid (JStr "entre-lobos").

(** The reply to the source request of [get_tracks]. *)
Definition source_reply {T} (w : World T) (self : Service) (tid : string)
  : post_reply :=
  http_post w (endpoint_metadata self) MediaSourceQuery tid
    (default (JStr "entre-lobos") (slug self)).

Definition playlist_type_name : list string :=
  ["data"; "media"; "playlist"; "type"; "name"].
Definition source_id : list string := ["data"; "media"; "source"; "id"].

End Spec.

(** ** Sample documents and a sample world *)

Module Samples.
Import Json Exn ET_path Eff ET BRASIL_PARALELO Spec.

Definition dash (l : string) : string := "{urn:mpeg:dash:schema:mpd:2011}" +:+ l.
Definition cenc (l : string) : string := "{urn:mpeg:cenc:2013}" +:+ l.

Definition mpd (cps : list Element) : Element :=
  Elem (dash "MPD") ∅ None
    [Elem (dash "Period") ∅ None [Elem (dash "AdaptationSet") ∅ None cps]].

Definition protection (attrs : gmap string string) (kids : list Element)
  : Element :=
  Elem (dash "ContentProtection") attrs None kids.

Definition pssh_elem (t : option string) : Element := Elem (cenc "pssh") ∅ t [].

Definition sample_kid : string := "9eb4050d-e44b-4802-932e-27d75083e266".
Definition sample_pssh : string := "AAAAW3Bzc2g=".
Definition playready_uri : string :=
  "urn:uuid:9a04f079-9840-4286-ab92-e65be0885f95".

(** A well-formed manifest with both protection blocks, and the tree
    [ET.fromstring] builds from it. *)
Definition standard_text : string :=
  "<MPD xmlns='urn:mpeg:dash:schema:mpd:2011' xmlns:cenc='urn:mpeg:cenc:2013'><Period><AdaptationSet><ContentProtection schemeIdUri='urn:mpeg:dash:mp4protection:2011' value='cenc' cenc:default_KID='9eb4050d-e44b-4802-932e-27d75083e266'/><ContentProtection schemeIdUri='urn:uuid:edef8ba9-79d6-4ace-a3c8-27dcd51d21ed'><cenc:pssh>AAAAW3Bzc2g=</cenc:pssh></ContentProtection></AdaptationSet></Period></MPD>".

Definition widevine_cp (pssh : option string) : Element :=
  protection {[ "schemeIdUri" := widevine_uri ]} [pssh_elem pssh].

Definition playready_cp (pssh : option string) : Element :=
  protection {[ "schemeIdUri" := playready_uri ]} [pssh_elem pssh].

Definition standard_manifest : Element :=
  mpd [ protection {[ "schemeIdUri" := mp4protection_uri;
                      "value" := "cenc";
                      clark_default_KID := sample_kid ]} [];
        widevine_cp (Some sample_pssh) ].

(** A text that is not well-formed, with the parser's message. *)
Definition broken_text : string := "<MPD><Period></MPD>".
Definition broken_message : string := "mismatched tag: line 1, column 15".

(** Elements built by hand, whose attribute dictionary holds the very
    key the plugin asks for.  No parsed document contains one. *)
Definition keyed_mp4 (kid : string) : Element :=
  protection {[ "schemeIdUri" := mp4protection_uri; kid_key := kid ]} [].

Definition keyed_manifest : Element :=
  mpd [ keyed_mp4 sample_kid; widevine_cp (Some sample_pssh) ].

(** Two more well-formed manifests with the trees [ET.fromstring] builds
    from them.  In the first the only protection header sits in a
    PlayReady block; in the second the Widevine block has an empty
    [cenc:pssh]. *)
Definition clark_mp4 (kid : string) : Element :=
  protection {[ "schemeIdUri" := mp4protection_uri;
                "value" := "cenc";
                clark_default_KID := kid ]} [].

Definition fallback_text : string :=
  "<MPD xmlns='urn:mpeg:dash:schema:mpd:2011' xmlns:cenc='urn:mpeg:cenc:2013'><Period><AdaptationSet><ContentProtection schemeIdUri='urn:mpeg:dash:mp4protection:2011' value='cenc' cenc:default_KID='9eb4050d-e44b-4802-932e-27d75083e266'/><ContentProtection schemeIdUri='urn:uuid:9a04f079-9840-4286-ab92-e65be0885f95'><cenc:pssh>AAAAW3Bzc2g=</cenc:pssh></ContentProtection></AdaptationSet></Period></MPD>".

Definition fallback_document : Element :=
  mpd [ clark_mp4 sample_kid; playready_cp (Some sample_pssh) ].

Definition no_pssh_text : string :=
  "<MPD xmlns='urn:mpeg:dash:schema:mpd:2011' xmlns:cenc='urn:mpeg:cenc:2013'><Period><AdaptationSet><ContentProtection schemeIdUri='urn:mpeg:dash:mp4protection:2011' value='cenc' cenc:default_KID='9eb4050d-e44b-4802-932e-27d75083e266'/><ContentProtection schemeIdUri='urn:uuid:edef8ba9-79d6-4ace-a3c8-27dcd51d21ed'><cenc:pssh/></ContentProtection></AdaptationSet></Period></MPD>".

Definition no_pssh_document : Element :=
  mpd [ clark_mp4 sample_kid; widevine_cp None ].

Definition episode2_title_id : string := "62b0d862d12d4c0029f05603".

Definition series_metadata : json :=
  JObj {[ "data" := JObj {[ "media" := JObj {[
    "id" := JStr episode2_title_id;
    "name" := JStr "Entre Lobos 2";
    "duration" := JInt 3600;
    "playlist" := JObj {[ "type" := JObj {[ "name" := JStr "series" ]};
                          "name" := JStr "Entre Lobos";
                          "slug" := JStr "entre-lobos" ]} ]} ]} ]}.

Definition source_data : json :=
  JObj {[ "data" := JObj {[ "media" := JObj {[
    "source" := JObj {[ "id" := JStr "5f1a" ]} ]} ]} ]}.

(** One run's surroundings: the endpoint answers both queries, the
    stream host serves [standard_text], and the parser is ElementTree on
    the two sample texts (this world holds no other document, so any
    other text is answered with a parse error). *)
Definition sample_world : World unit :=
  {| http_post := λ _ q _ _,
       match q with
       | MediaMetadataQuery => PostJson series_metadata
       | MediaSourceQuery => PostJson source_data
       end;
     http_get := λ _, GetText standard_text;
     fromstring := λ s,
       if bool_decide (s = standard_text) then inr standard_manifest
       else if bool_decide (s = broken_text) then inl broken_message
       else inl "syntax error: line 1, column 0";
     py_str := λ _, "None";
     parse_manifest := λ _, inr [ {| track_data := (); track_drm := None |} ] |}.

Definition sample_service : Service :=
  {| title_id := Some episode2_title_id; is_movie := false;
     endpoint_metadata := "https://plataforma.brasilparalelo.com.br/graphql";
     slug := None |}.

Definition sample_url : string :=
  "https://stream.brasilparalelo.com.br/5f1a/d7137531-aab7-43f7-a15b-a64b0453b4ca/mpd/stream.mpd".

(** The same surroundings with ElementTree on all the well-formed sample
    texts. *)
Definition document_world : World unit :=
  {| http_post := http_post sample_world;
     http_get := λ _, GetText fallback_text;
     fromstring := λ s,
       if bool_decide (s = standard_text) then inr standard_manifest
       else if bool_decide (s = fallback_text) then inr fallback_document
       else if bool_decide (s = no_pssh_text) then inr no_pssh_document
       else if bool_decide (s = broken_text) then inl broken_message
       else inl "syntax error: line 1, column 0";
     py_str := py_str sample_world;
     parse_manifest := parse_manifest sample_world |}.

End Samples.

(** ** The remaining methods: [search], [get_widevine_license], [cli] *)

Module Methods.
Import Json Exn ET_path Eff ET BRASIL_PARALELO.

(** *** [search] *)

(** Modelled from the spec: the host framework's [SearchResult] is outside
    the source file; it is kept as the three values the plugin passes. *)
Record SearchResult := {
  result_title : json;
  result_id : json;
  result_type : json;
}.

(** [search] lets the exception of the HTTP library through unchanged. *)
Inductive failure :=
| RequestException (e : string)
| Raised (e : exn).

Definition base_url : string := "https://plataforma.brasilparalelo.com.br".

(** [j.get(k, d)] *)
Definition dict_get_default (j : json) (k : string) (d : json) : exn + json :=
  match j with
  | JObj m => inr (default d (m !! k))
  | _ => inl AttributeError
  end.

(** The values a [for r in j] clause ranges over: the items of a list,
    the keys of a dictionary, the characters of a string.  (The order of
    the keys is the map's own; every key is a string, on which the
    subscripts of [search] fail alike.) *)
Definition iterate (j : json) : exn + list json :=
  match j with
  | JArr l => inr l
  | JObj m => inr (JStr <$> (map_to_list m).*1)
  | JStr s => inr ((λ c, JStr (String c "")) <$> list_ascii_of_string s)
  | _ => inl TypeError
  end.

(** [SearchResult(title=r["name"], id=r["id"], type=r["type"])] *)
Definition search_entry (r : json) : exn + SearchResult :=
  match subscript r "name" with
  | inl e => inl e
  | inr name =>
      match subscript r "id" with
      | inl e => inl e
      | inr id =>
          match subscript r "type" with
          | inl e => inl e
          | inr type =>
              inr {| result_title := name; result_id := id; result_type := type |}
          end
      end
  end.

(** The list comprehension: entries in order, the first failure wins. *)
Fixpoint search_entries (rs : list json) : exn + list SearchResult :=
  match rs with
  | [] => inr []
  | r :: rest =>
      match search_entry r with
      | inl e => inl e
      | inr x =>
          match search_entries rest with
          | inl e => inl e
          | inr xs => inr (x :: xs)
          end
      end
  end.

(** [session_get url q] is the outcome of
    [self.session.get(url, params={"q": q})] followed by [resp.json()]. *)
Definition search (session_get : string → string → post_reply)
    (query : string) : failure + list SearchResult :=
  match session_get (base_url +:+ "/api/search") query with
  | PostFailed e => inl (RequestException e)
  | PostNotJson e => inl (Raised (JSONDecodeError e))
  | PostJson data =>
      match dict_get_default data "results" (JArr []) with
      | inl e => inl (Raised e)
      | inr results =>
          match iterate results with
          | inl e => inl (Raised e)
          | inr rs =>
              match search_entries rs with
              | inl e => inl (Raised e)
              | inr out => inr out
              end
          end
      end
  end.

(** *** [get_widevine_license] *)

(** What the method takes from outside: [base64.b64encode(..).decode()],
    [base64.b64decode] (applied to whatever value the reply holds),
    [str()] of a JSON value that is not a string, and the session. *)
Record LicenseWorld := {
  b64encode : list Byte.byte → string;
  b64decode : json → exn + list Byte.byte;
  str_of : json → string;
  license_post : string → string → option string → post_reply;
}.

(** [f"{j}"] *)
Definition fmt_str (lw : LicenseWorld) (j : json) : string :=
  match j with
  | JStr s => s
  | _ => str_of lw j
  end.

(** The body of [if not license_data or "license" not in license_data:],
    which always raises. *)
Definition license_refused (lw : LicenseWorld) (license_data : json)
  : exn + list Byte.byte :=
  match (if truthy license_data then dict_get_or license_data "error"
         else inr (JObj ∅)) with
  | inl e => inl e
  | inr error =>
      match dict_get_default error "message" (JStr "Erro desconhecido") with
      | inl e => inl e
      | inr msg =>
          inl (Exception (FText ("Falha ao obter licença Widevine: "
                                 +:+ fmt_str lw msg)))
      end
  end.

(** [track] is accepted and not used. *)
Definition get_widevine_license {T} (lw : LicenseWorld) (self : Service)
    (challenge : list Byte.byte) (track : Track T) : exn + list Byte.byte :=
  match license_post lw (endpoint_metadata self) (b64encode lw challenge)
                     (title_id self) with
  | PostFailed e =>
      inl (Exception (FText ("Falha ao obter licença Widevine: " +:+ e)))
  | PostNotJson e => inl (JSONDecodeError e)
  | PostJson data =>
      match contains "errors" data with
      | inl e => inl e
      | inr true =>
          match subscript data "errors" with
          | inl e => inl e
          | inr errs =>
              inl (ValueError
                     (FData "Erros na resposta da API para licença Widevine: " errs))
          end
      | inr false =>
          match dict_get_or data "data" with
          | inl e => inl e
          | inr d =>
              match dict_get d "drm_license_v_2" with
              | inl e => inl e
              | inr license_data =>
                  if negb (truthy license_data) then
                    license_refused lw license_data
                  else
                    match contains "license" license_data with
                    | inl e => inl e
                    | inr false => license_refused lw license_data
                    | inr true =>
                        match subscript license_data "license" with
                        | inl e => inl e
                        | inr v => b64decode lw v
                        end
                    end
              end
          end
      end
  end.

(** *** [cli] *)

(** The fields [__init__] sets from the command line: [title] and
    [movie]; [slug] does not exist yet.  (The host part of [__init__],
    [super().__init__] and the header update, is not modelled.) *)
Definition new_instance (title : string) (movie : bool) (endpoint : string)
  : Service :=
  {| title_id := Some title; is_movie := movie;
     endpoint_metadata := endpoint; slug := None |}.

(** [title = service.get_titles(); tracks = service.get_tracks();
    return service] *)
Definition cli {T} (w : World T) (title : string) (movie : bool)
    (endpoint : string) : M Service :=
  let service := new_instance title movie endpoint in
  '(titles, service) ← get_titles w service None;
  tracks ← get_tracks w service None;
  mret service.

End Methods.

(** ** [TITLE_RE] *)

Module TitleRe.

Definition newline : ascii := ascii_of_nat 10.
Definition slash : ascii := "/"%char.

(** [[0-9a-f]] *)
Definition is_hex (c : ascii) : bool :=
  let n := nat_of_ascii c in
  (48 <=? n) && (n <=? 57) || (97 <=? n) && (n <=? 102).

(** A literal at the head of the input; the rest when it is there. *)
Fixpoint literal (p s : list ascii) : option (list ascii) :=
  match p, s with
  | [], _ => Some s
  | a :: p', b :: s' => if bool_decide (a = b) then literal p' s' else None
  | _ :: _, [] => None
  end.

(** [[^/]+]: the longest run of characters other than a slash. *)
Fixpoint segment (s : list ascii) : list ascii * list ascii :=
  match s with
  | [] => ([], [])
  | c :: s' =>
      if bool_decide (c = slash) then ([], s)
      else let '(seg, rest) := segment s' in (c :: seg, rest)
  end.

(** [(?P<title_id>[0-9a-f]{24})$]: [$] holds at the end of the input and
    before a final newline. *)
Definition title_id_at_end (s : list ascii) : option (list ascii) :=
  let t := take 24 s in
  let rest := drop 24 s in
  if bool_decide (length t = 24) && forallb is_hex t
     && (bool_decide (rest = []) || bool_decide (rest = [newline]))
  then Some t else None.

Definition http_chars : list ascii := list_ascii_of_string "http".
Definition host_chars : list ascii :=
  list_ascii_of_string "://plataforma.brasilparalelo.com.br/playlists/".
Definition media_chars : list ascii := list_ascii_of_string "/media/".

(** [s?] *)
Definition optional_s (s : list ascii) : list ascii :=
  match s with
  | c :: s' => if bool_decide (c = "s"%char) then s' else s
  | [] => s
  end.

(** [https?://plataforma\.brasilparalelo\.com\.br/playlists/[^/]+/media/]
    followed by the title id. *)
Definition url_form (s : list ascii) : option (list ascii) :=
  s1 ← literal http_chars s;
  s3 ← literal host_chars (optional_s s1);
  let '(seg, s4) := segment s3 in
  if bool_decide (seg = []) then None else
  s5 ← literal media_chars s4;
  title_id_at_end s5.

(** [TITLE_RE.match(s)] and its group [title_id]: the optional prefix is
    tried first, then the bare id. *)
Definition title_re_match (s : string) : option string :=
  let cs := list_ascii_of_string s in
  string_of_list_ascii <$>
    match url_form cs with
    | Some t => Some t
    | None => title_id_at_end cs
    end.

End TitleRe.

(** ** The second half of [get_tracks] on its own *)

Module Stages.
Import Json Exn ET_path Eff ET BRASIL_PARALELO.

(** [get_tracks] from the manifest download to the end, for the content
    id and the manifest URL computed before. *)
Definition tracks_from_manifest {T} (w : World T) (self : Service)
    (content_id : json) (manifest_url : string) : M (list (Track T)) :=
  manifest_xml ← download_manifest w manifest_url;
  '(kid, pssh) ← extract w manifest_url manifest_xml;
  emit (EvParseManifest manifest_url);;
  tracks ← lift (parse_manifest w manifest_url);
  match tracks with
  | [] => raise IndexError
  | t :: rest =>
      ret (set_drm t {| drm_key := None;
                        drm_license_url := endpoint_metadata self;
                        drm_pssh := pssh;
                        drm_content_id := content_id;
                        drm_kid := kid |} :: rest)
  end.

End Stages.

(** ** More samples *)

Module MoreSamples.
Import Json Exn ET_path Eff ET BRASIL_PARALELO Spec Samples Methods.

(** A world that answers every request with [data], serves [body] and
    parses every text to [root] when there is one. *)
Definition world_of (data : json) (body : get_reply) (root : option Element)
    (tracks : list (Track nat)) : World nat :=
  {| http_post := λ _ _ _ _, PostJson data;
     http_get := λ _, body;
     fromstring := λ _, match root with
                        | Some r => inr r
                        | None => inl broken_message
                        end;
     py_str := λ _, "None";
     parse_manifest := λ _, inr tracks |}.

Definition plain_track (n : nat) : Track nat :=
  {| track_data := n; track_drm := None |}.


Definition errors_map : gmap string json :=
  {[ "errors" := JArr [JStr "unauthorized"];
     "data" := JObj {[ "media" := JObj {[
       "source" := JObj {[ "id" := JStr "5f1a" ]} ]} ]} ]}.

Definition errors_reply : json := JObj errors_map.

Definition flagged_service : Service :=
  {| title_id := Some episode2_title_id; is_movie := true;
     endpoint_metadata := endpoint_metadata sample_service;
     slug := None |}.

(** Worlds around [sample_service]: the download fails; the API reports
    errors; the playlist type is [null]. *)
Definition offline_world : World nat :=
  world_of source_data (GetFailed "503 Server Error") None [].

Definition errors_world : World nat :=
  world_of errors_reply (GetText standard_text) None [].


Definition search_reply : json :=
  JObj {[ "results" := JArr [
    JObj {[ "name" := JStr "Entre Lobos"; "id" := JStr "a1"; "type" := JStr "series" ]};
    JObj {[ "name" := JStr "Patria"; "id" := JStr "b2"; "type" := JStr "movie" ]} ] ]}.

Definition sample_license_world (reply : post_reply) : LicenseWorld :=
  {| b64encode := λ _, "CAQ=";
     b64decode := λ v, match v with
                       | JStr _ => inr [Byte.x08; Byte.x02]
                       | _ => inl TypeError
                       end;
     str_of := λ _, "None";
     license_post := λ _ _ _, reply |}.

Definition granted_reply : json :=
  JObj {[ "data" := JObj {[ "drm_license_v_2" :=
    JObj {[ "license" := JStr "CAI=" ]} ]} ]}.


Definition sample_hex : string := "0123456789abcdef01234567".

End MoreSamples.

(** * Facts *)

(** ** Truth values *)

Section TruthValues.
Import Json.

Lemma truthy_Some x : Py.truthy x = true → ∃ s, x = Some s ∧ s ≠ "".
Proof.
  destruct x as [s|]; simpl; [|done].
  intros H. exists s. split; [done|].
  intros ->. done.
Qed.

Lemma truthy_intro s : s ≠ "" → Py.truthy (Some s) = true.
Proof.
  intros Hs. simpl. destruct (String.eqb_spec s ""); [contradiction|done].
Qed.

Lemma eq_str_spec j s : eq_str j s = true ↔ j = JStr s.
Proof.
  destruct j; simpl; try (split; [done | intros [=]]).
  split.
  - intros H%String.eqb_eq. by subst.
  - intros [= ->]. apply String.eqb_refl.
Qed.

End TruthValues.

(** ** The effect monad *)

Section Monad.
Import Exn Eff Spec.
Context {A B : Type}.

Lemma regular_ret (a : A) : regular (mret a).
Proof. intros tr. unfold result, calls. simpl. by rewrite app_nil_r. Qed.

Lemma regular_raise (e : exn) : regular (raise (A:=A) e).
Proof. intros tr. unfold result, calls. simpl. by rewrite app_nil_r. Qed.

Lemma regular_lift (r : exn + A) : regular (lift r).
Proof. intros tr. unfold result, calls. simpl. by rewrite app_nil_r. Qed.

Lemma run_bind (m : M A) (k : A → M B) :
  regular m →
  (m ≫= k) [] =
    match result m with
    | inl e => (inl e, calls m)
    | inr a => k a (calls m)
    end.
Proof.
  intros Hm. unfold mbind, M_bind, bind.
  rewrite (Hm []). simpl. by destruct (result m).
Qed.

Lemma regular_bind (m : M A) (k : A → M B) :
  regular m → (∀ a, regular (k a)) → regular (m ≫= k).
Proof.
  intros Hm Hk tr. unfold result, calls. rewrite (run_bind m k Hm).
  unfold mbind, M_bind, bind. rewrite (Hm tr).
  destruct (result m) as [e|a]; simpl; [done|].
  rewrite (Hk a (tr ++ calls m)), (Hk a (calls m)). simpl.
  by rewrite app_assoc.
Qed.

Lemma result_bind (m : M A) (k : A → M B) :
  regular m → (∀ a, regular (k a)) →
  result (m ≫= k) =
    match result m with
    | inl e => inl e
    | inr a => result (k a)
    end.
Proof.
  intros Hm Hk. unfold result at 1. rewrite (run_bind m k Hm).
  destruct (result m) as [e|a]; [done|]. by rewrite (Hk a (calls m)).
Qed.

Lemma calls_bind (m : M A) (k : A → M B) :
  regular m → (∀ a, regular (k a)) →
  calls (m ≫= k) =
    calls m ++ match result m with
               | inl _ => []
               | inr a => calls (k a)
               end.
Proof.
  intros Hm Hk. unfold calls at 1. rewrite (run_bind m k Hm).
  destruct (result m) as [e|a]; simpl; [by rewrite app_nil_r|].
  by rewrite (Hk a (calls m)).
Qed.

End Monad.

Section MonadSteps.
Import Exn Eff Spec.

Lemma regular_emit ev : regular (emit ev).
Proof. by intros tr. Qed.

(** [emit ev;; k]: the event comes first, the outcome is that of [k]. *)
Lemma result_emit {A} ev (k : M A) :
  regular k → result (emit ev;; k) = result k.
Proof.
  intros Hk. rewrite result_bind; [done | apply regular_emit | done].
Qed.

Lemma calls_emit {A} ev (k : M A) :
  regular k → calls (emit ev;; k) = ev :: calls k.
Proof.
  intros Hk. rewrite calls_bind; [done | apply regular_emit | done].
Qed.

(** Two runs in a row, the second from the trace the first leaves, end
    in the same outcome. *)
Lemma regular_rerun {A} (m : M A) tr :
  regular m → (m (m tr).2).1 = (m tr).1.
Proof. intros Hm. by rewrite !Hm. Qed.

End MonadSteps.

Create HintDb regular.

#[global] Hint Resolve regular_ret regular_raise regular_lift regular_emit : regular.

(** Regularity of a program follows its syntax. *)
Ltac regular :=
  repeat first
    [ progress intros
    | apply regular_ret | apply regular_raise
    | apply regular_lift | apply regular_emit
    | solve [auto with regular]
    | apply regular_bind
    | match goal with
      | |- Spec.regular (match ?x with _ => _ end) => destruct x
      end ].

(** ** Bounding the calls of a program *)

Section Only.
Import Exn Eff Spec.
Context {A B : Type} (P : event → Prop).

Lemma only_regular (m : M A) : only P m → regular m.
Proof. by intros [? _]. Qed.

Lemma only_ret (a : A) : only P (mret a).
Proof. split; [apply regular_ret | constructor]. Qed.

Lemma only_raise (e : exn) : only P (raise (A:=A) e).
Proof. split; [apply regular_raise | constructor]. Qed.

Lemma only_lift (r : exn + A) : only P (lift r).
Proof. split; [apply regular_lift | constructor]. Qed.

Lemma only_emit ev : P ev → only P (emit ev).
Proof. intros Hev. split; [apply regular_emit | by repeat constructor]. Qed.

(** The continuation is examined knowing what the first part returned. *)
Lemma only_bind (m : M A) (k : A → M B) :
  only P m → (∀ a, result m = inr a → only P (k a)) → only P (m ≫= k).
Proof.
  intros [Hm Hcm] Hk. split.
  - intros tr. unfold result, calls. rewrite (run_bind m k Hm).
    unfold mbind, M_bind, bind. rewrite (Hm tr).
    destruct (result m) as [e|a] eqn:Ha; simpl; [done|].
    destruct (Hk a eq_refl) as [Hka _].
    rewrite (Hka (tr ++ calls m)), (Hka (calls m)). simpl.
    by rewrite app_assoc.
  - unfold calls at 1. rewrite (run_bind m k Hm).
    destruct (result m) as [e|a] eqn:Ha; simpl; [done|].
    destruct (Hk a eq_refl) as [Hka Hcka].
    rewrite (Hka (calls m)). simpl. by apply Forall_app.
Qed.

Lemma only_weaken (Q : event → Prop) (m : M A) :
  (∀ ev, Q ev → P ev) → only Q m → only P m.
Proof.
  intros HQP [Hm Hc]. split; [done|]. eapply Forall_impl; eauto.
Qed.

(** A successful bind went through a successful first part. *)
Lemma result_bind_inr (m : M A) (k : A → M B) b :
  regular m → (∀ a, regular (k a)) →
  result (m ≫= k) = inr b →
  ∃ a, result m = inr a ∧ result (k a) = inr b.
Proof.
  intros Hm Hk. rewrite result_bind by done.
  destruct (result m) as [e|a]; [done|]. eauto.
Qed.

End Only.

(** ** Element trees and path queries *)

Section Trees.
Import ET_path ET BRASIL_PARALELO Spec.

Lemma iter_unfold e : iter e = e :: flat_map iter (children e).
Proof. by destruct e. Qed.

(** Induction on an element with the hypothesis for every child. *)
Lemma Element_ind' (P : Element → Prop) :
  (∀ t a x cs, Forall P cs → P (Elem t a x cs)) → ∀ e, P e.
Proof.
  intros step. fix IH 1. intros [t a x cs]. apply step.
  induction cs as [|c cs IHcs]; constructor; [apply IH | apply IHcs].
Qed.

Lemma iter_self e : e ∈ iter e.
Proof. rewrite iter_unfold. left. Qed.

Lemma elem_of_flat_map_iter (cs : list Element) d :
  d ∈ flat_map iter cs ↔ ∃ c, c ∈ cs ∧ d ∈ iter c.
Proof.
  rewrite !list_elem_of_In, in_flat_map.
  split; intros (c & Hc & Hd); exists c;
    by rewrite ?list_elem_of_In, <- ?list_elem_of_In in *.
Qed.

(** [iter] is closed under taking children. *)
Lemma iter_children root e c :
  e ∈ iter root → c ∈ children e → c ∈ iter root.
Proof.
  revert e c. induction root as [t a x cs IH] using Element_ind'.
  intros e c He Hc. rewrite iter_unfold in He |- *. simpl in *.
  apply elem_of_cons in He as [->|He].
  - right. apply elem_of_flat_map_iter. exists c. split; [done|].
    apply iter_self.
  - right. apply elem_of_flat_map_iter in He as (c' & Hc' & He).
    apply elem_of_flat_map_iter. exists c'. split; [done|].
    rewrite Forall_forall in IH. by apply (IH c' Hc' e c).
Qed.

Lemma descendants_iter root d : d ∈ descendants root → d ∈ iter root.
Proof.
  intros Hd. rewrite iter_unfold. by right.
Qed.

Lemma expand_protection :
  expand namespaces content_protection = Some protection_tag.
Proof. reflexivity. Qed.

Lemma expand_pssh : expand namespaces (QName "cenc" "pssh") = Some pssh_tag.
Proof. reflexivity. Qed.

Lemma findall_protection root pred :
  findall root (Descendant content_protection pred) namespaces =
  Some (List.filter (λ d, has_tag protection_tag d && holds pred d)
                    (descendants root)).
Proof. unfold findall. by rewrite expand_protection. Qed.

Lemma find_pssh cp :
  find cp pssh_path namespaces =
  Some (head (List.filter (has_tag pssh_tag) (children cp))).
Proof. unfold find, pssh_path, findall. by rewrite expand_pssh. Qed.

Lemma matches_protection root pred :
  matches root (Descendant content_protection pred) =
  List.filter (λ d, has_tag protection_tag d && holds pred d)
              (descendants root).
Proof. unfold matches. by rewrite findall_protection. Qed.

Lemma matches_iter root pred cp :
  cp ∈ matches root (Descendant content_protection pred) → cp ∈ iter root.
Proof.
  rewrite matches_protection, list_elem_of_In, filter_In.
  intros [Hd _]. apply descendants_iter. by apply list_elem_of_In.
Qed.

(** The [cenc:pssh] child [cp.find] returns is a child with that tag. *)
Lemma pssh_text_child cp s :
  pssh_text cp = Some s →
  ∃ e, e ∈ children cp ∧ tag e = pssh_tag ∧ text e = Some s.
Proof.
  unfold pssh_text. rewrite find_pssh.
  destruct (head _) as [e|] eqn:He; [|done].
  intros Ht. exists e.
  apply head_Some_elem_of in He.
  apply list_elem_of_In, filter_In in He as [Hin Htag].
  split; [by apply list_elem_of_In|]. split; [|done].
  by apply String.eqb_eq.
Qed.

(** The key the plugin asks for is not a name the parser produces. *)
Lemma kid_key_not_parsed : parsed_name kid_key = false.
Proof. reflexivity. Qed.

Lemma parsed_kid_value root cp :
  parsed root → cp ∈ iter root → kid_value cp = None.
Proof.
  intros Hp Hcp. unfold parsed in Hp. rewrite Forall_forall in Hp.
  specialize (Hp cp Hcp). unfold kid_value, get.
  destruct (attrib cp !! kid_key) as [v|] eqn:Hv; [|done].
  apply Hp in Hv. cbv beta in Hv. by rewrite kid_key_not_parsed in Hv.
Qed.

End Trees.

(** ** The scans of [get_tracks] *)

Section Scans.
Import Exn ET_path Eff ET BRASIL_PARALELO Spec.

Lemma regular_root_findall root p : regular (root_findall root p).
Proof. unfold root_findall. regular. Qed.

Lemma regular_cp_find cp p : regular (cp_find cp p).
Proof. unfold cp_find. regular. Qed.

Lemma result_root_findall root pred :
  result (root_findall root (Descendant content_protection pred)) =
  inr (matches root (Descendant content_protection pred)).
Proof.
  unfold root_findall, matches. rewrite findall_protection.
  by rewrite result_emit by regular.
Qed.

Lemma calls_root_findall root p : calls (root_findall root p) = [EvFindall p].
Proof.
  unfold root_findall. rewrite calls_emit by regular.
  by destruct (findall root p namespaces).
Qed.

Lemma result_cp_find cp :
  result (cp_find cp pssh_path) =
  inr (head (List.filter (has_tag pssh_tag) (children cp))).
Proof.
  unfold cp_find. rewrite find_pssh. by rewrite result_emit by regular.
Qed.

Lemma calls_cp_find cp p : calls (cp_find cp p) = [EvFind p].
Proof.
  unfold cp_find. rewrite calls_emit by regular.
  by destruct (find cp p namespaces).
Qed.

Lemma pssh_loop_cons cp rest acc :
  pssh_loop (cp :: rest) acc =
  cp_find cp pssh_path ≫= λ pssh_elem,
    let pssh := match pssh_elem with
                | Some e => text e
                | None => None
                end in
    if Py.truthy pssh then mret pssh else pssh_loop rest pssh.
Proof. reflexivity. Qed.

Lemma regular_pssh_loop cps acc : regular (pssh_loop cps acc).
Proof.
  revert acc. induction cps as [|cp rest IH]; intros acc.
  - apply regular_ret.
  - rewrite pssh_loop_cons. apply regular_bind; [apply regular_cp_find|].
    intros e. cbv zeta. destruct (Py.truthy _); [apply regular_ret | apply IH].
Qed.

Lemma pssh_text_head cp :
  pssh_text cp =
  match head (List.filter (has_tag pssh_tag) (children cp)) with
  | Some e => text e
  | None => None
  end.
Proof. unfold pssh_text. by rewrite find_pssh. Qed.

Lemma result_pssh_loop_cons cp rest acc :
  result (pssh_loop (cp :: rest) acc) =
  if Py.truthy (pssh_text cp) then inr (pssh_text cp)
  else result (pssh_loop rest (pssh_text cp)).
Proof.
  rewrite pssh_loop_cons, result_bind.
  - rewrite result_cp_find, pssh_text_head. cbv zeta.
    by destruct (Py.truthy _).
  - apply regular_cp_find.
  - intros e. cbv zeta.
    destruct (Py.truthy _); [apply regular_ret | apply regular_pssh_loop].
Qed.

Lemma calls_pssh_loop_cons cp rest acc :
  calls (pssh_loop (cp :: rest) acc) =
  EvFind pssh_path ::
    (if Py.truthy (pssh_text cp) then []
     else calls (pssh_loop rest (pssh_text cp))).
Proof.
  rewrite pssh_loop_cons, calls_bind.
  - rewrite calls_cp_find, result_cp_find, pssh_text_head. cbv zeta. simpl.
    by destruct (Py.truthy _).
  - apply regular_cp_find.
  - intros e. cbv zeta.
    destruct (Py.truthy _); [apply regular_ret | apply regular_pssh_loop].
Qed.

(** The loop returns the text of the first element that has one. *)
Lemma pssh_loop_found l1 cp l2 acc :
  Forall (λ c, falsy (pssh_text c)) l1 →
  Py.truthy (pssh_text cp) = true →
  result (pssh_loop (l1 ++ cp :: l2) acc) = inr (pssh_text cp).
Proof.
  intros Hl1 Hcp. revert acc.
  induction Hl1 as [|c l1 Hc _ IH]; intros acc; simpl app.
  - by rewrite result_pssh_loop_cons, Hcp.
  - rewrite result_pssh_loop_cons, Hc. apply IH.
Qed.

(** Without such an element the loop ends with a falsy value. *)
Lemma pssh_loop_none cps acc :
  Forall (λ c, falsy (pssh_text c)) cps → falsy acc →
  ∃ r, result (pssh_loop cps acc) = inr r ∧ falsy r.
Proof.
  intros Hcps. revert acc.
  induction Hcps as [|c cps Hc _ IH]; intros acc Hacc.
  - by exists acc.
  - rewrite result_pssh_loop_cons, Hc. by apply IH.
Qed.

(** The loop always ends, and only calls [find]. *)
Lemma pssh_loop_total cps acc : ∃ r, result (pssh_loop cps acc) = inr r.
Proof.
  revert acc. induction cps as [|c cps IH]; intros acc.
  - by exists acc.
  - rewrite result_pssh_loop_cons. destruct (Py.truthy _); eauto.
Qed.

Lemma pssh_loop_calls cps acc :
  Forall (λ ev, ev = EvFind pssh_path) (calls (pssh_loop cps acc)).
Proof.
  revert acc. induction cps as [|c cps IH]; intros acc.
  - constructor.
  - rewrite calls_pssh_loop_cons. constructor; [done|].
    destruct (Py.truthy _); [constructor | apply IH].
Qed.

Lemma kid_loop_found l1 cp l2 acc :
  Forall (λ c, falsy (kid_value c)) l1 →
  Py.truthy (kid_value cp) = true →
  kid_loop (l1 ++ cp :: l2) acc = kid_value cp.
Proof.
  intros Hl1 Hcp. revert acc. unfold falsy, kid_value in *.
  induction Hl1 as [|c l1 Hc _ IH]; intros acc; cbn [kid_loop app].
  - by rewrite Hcp.
  - rewrite Hc. apply IH.
Qed.

Lemma kid_loop_none cps acc :
  Forall (λ c, falsy (kid_value c)) cps → falsy acc →
  falsy (kid_loop cps acc).
Proof.
  intros Hcps. revert acc. unfold falsy, kid_value in *.
  induction Hcps as [|c cps Hc _ IH]; intros acc Hacc; cbn [kid_loop];
    [done|].
  rewrite Hc. by apply IH.
Qed.

(** Either an element is the first with a truthy value and the loop
    returns it, or no element has one and the result is falsy. *)
Lemma kid_loop_cases cps :
  (∃ l1 cp l2, cps = l1 ++ cp :: l2 ∧
     Forall (λ c, falsy (kid_value c)) l1 ∧
     Py.truthy (kid_value cp) = true) ∨
  Forall (λ c, falsy (kid_value c)) cps.
Proof.
  induction cps as [|c cps [(l1 & cp & l2 & -> & Hl1 & Hcp)|IH]].
  - right. constructor.
  - destruct (Py.truthy (kid_value c)) eqn:Hc.
    + left. by exists [], c, (l1 ++ cp :: l2).
    + left. exists (c :: l1), cp, l2. by repeat split; [constructor|].
  - destruct (Py.truthy (kid_value c)) eqn:Hc.
    + left. by exists [], c, cps.
    + right. by constructor.
Qed.

Lemma regular_scan_kid root : regular (scan_kid root).
Proof. unfold scan_kid. regular. Qed.

Lemma regular_scan_widevine root : regular (scan_widevine root).
Proof.
  unfold scan_widevine.
  apply regular_bind; [apply regular_root_findall|].
  intros. apply regular_pssh_loop.
Qed.

Lemma regular_scan_fallback root pssh : regular (scan_fallback root pssh).
Proof.
  unfold scan_fallback.
  apply regular_bind; [apply regular_root_findall|].
  intros. apply regular_pssh_loop.
Qed.

Lemma result_scan_kid root :
  result (scan_kid root) = inr (kid_loop (matches root mp4protection_path) None).
Proof.
  unfold scan_kid. rewrite result_bind by regular.
  unfold mp4protection_path. by rewrite result_root_findall.
Qed.

Lemma calls_scan_kid root : calls (scan_kid root) = [EvFindall mp4protection_path].
Proof.
  unfold scan_kid. rewrite calls_bind by regular.
  rewrite calls_root_findall.
  by destruct (result (root_findall root mp4protection_path)).
Qed.

Lemma result_scan_widevine root :
  result (scan_widevine root) =
  result (pssh_loop (matches root widevine_path) None).
Proof.
  unfold scan_widevine. rewrite result_bind.
  - unfold widevine_path. by rewrite result_root_findall.
  - apply regular_root_findall.
  - intros. apply regular_pssh_loop.
Qed.

Lemma result_scan_fallback root pssh :
  result (scan_fallback root pssh) =
  result (pssh_loop (matches root any_protection_path) pssh).
Proof.
  unfold scan_fallback. rewrite result_bind.
  - unfold any_protection_path. by rewrite result_root_findall.
  - apply regular_root_findall.
  - intros. apply regular_pssh_loop.
Qed.

Lemma calls_scan_fallback root pssh :
  ∃ finds, calls (scan_fallback root pssh) = EvFindall any_protection_path :: finds.
Proof.
  unfold scan_fallback. rewrite calls_bind.
  - rewrite calls_root_findall. simpl. eauto.
  - apply regular_root_findall.
  - intros. apply regular_pssh_loop.
Qed.

End Scans.

#[global] Hint Resolve regular_root_findall regular_cp_find regular_pssh_loop
  regular_scan_kid regular_scan_widevine regular_scan_fallback : regular.

(** ** Extraction of the protection metadata *)

Section Extraction.
Import Exn ET_path Eff ET BRASIL_PARALELO Spec.

(** The three optional stages after the KID scan, as [extract_protection]
    chains them. *)
Lemma regular_extract_protection url root :
  regular (extract_protection url root).
Proof. unfold extract_protection. regular. Qed.

Lemma result_extract_protection url root :
  result (extract_protection url root) =
  match result (scan_kid root) with
  | inl e => inl e
  | inr kid =>
      match result (if Py.truthy kid then scan_widevine root else mret None) with
      | inl e => inl e
      | inr pssh =>
          match result (if Py.truthy kid && negb (Py.truthy pssh)
                        then scan_fallback root pssh else mret pssh) with
          | inl e => inl e
          | inr pssh' =>
              if negb (Py.truthy kid) || negb (Py.truthy pssh')
              then inl (missing_protection url) else inr (kid, pssh')
          end
      end
  end.
Proof.
  unfold extract_protection.
  rewrite result_bind by regular.
  destruct (result (scan_kid root)) as [e|kid]; [done|].
  rewrite result_bind by regular.
  destruct (result (if Py.truthy kid then _ else _)) as [e|pssh]; [done|].
  rewrite result_bind by regular.
  destruct (result (if _ && _ then _ else _)) as [e|pssh']; [done|].
  by destruct (_ || _).
Qed.

(** With a falsy KID only the first query is issued. *)
Lemma extract_protection_no_kid url root :
  falsy (kid_loop (matches root mp4protection_path) None) →
  result (extract_protection url root) = inl (missing_protection url) ∧
  calls (extract_protection url root) = [EvFindall mp4protection_path].
Proof.
  intros Hkid. split.
  - rewrite result_extract_protection, result_scan_kid.
    unfold falsy in Hkid. by rewrite Hkid.
  - unfold extract_protection. rewrite calls_bind by regular.
    rewrite calls_scan_kid, result_scan_kid.
    unfold falsy in Hkid. by rewrite Hkid.
Qed.

(** A document whose attributes all come from the parser never yields a
    KID: the lookup key is not a name the parser produces. *)
Lemma parsed_manifest_has_no_kid root :
  parsed root → falsy (kid_loop (matches root mp4protection_path) None).
Proof.
  intros Hp. apply kid_loop_none; [|done].
  apply Forall_forall. intros cp Hcp.
  apply matches_iter in Hcp.
  unfold falsy. by rewrite (parsed_kid_value root cp Hp Hcp).
Qed.

Lemma parsed_manifest_is_rejected url root :
  parsed root →
  result (extract_protection url root) = inl (missing_protection url).
Proof.
  intros Hp. by apply extract_protection_no_kid, parsed_manifest_has_no_kid.
Qed.

Lemma regular_parse_xml {T} (w : World T) text : regular (parse_xml w text).
Proof. unfold parse_xml. regular. Qed.

Lemma regular_extract {T} (w : World T) url text : regular (extract w url text).
Proof.
  unfold extract. apply regular_bind; [apply regular_parse_xml|].
  intros. apply regular_extract_protection.
Qed.

Lemma result_extract {T} (w : World T) url text :
  result (extract w url text) =
  match fromstring w text with
  | inl e => inl (ValueError (FText ("Falha ao parsear o manifest MPD XML: " +:+ e)))
  | inr root => result (extract_protection url root)
  end.
Proof.
  unfold extract. rewrite result_bind;
    [|apply regular_parse_xml | intros; apply regular_extract_protection].
  unfold parse_xml. rewrite result_emit by regular.
  by destruct (fromstring w text).
Qed.

Lemma calls_extract {T} (w : World T) url text :
  calls (extract w url text) =
  EvFromstring text ::
    match fromstring w text with
    | inl e => []
    | inr root => calls (extract_protection url root)
    end.
Proof.
  unfold extract. rewrite calls_bind;
    [|apply regular_parse_xml | intros; apply regular_extract_protection].
  unfold parse_xml. rewrite calls_emit, result_emit by regular.
  by destruct (fromstring w text).
Qed.

End Extraction.

(** ** JSON dictionaries *)

Section Dictionaries.
Import Json Exn Spec.

Lemma json_path_cons k ks j :
  json_path (k :: ks) j = json_path [k] j ≫= json_path ks.
Proof.
  destruct j; try done. simpl. by destruct (m !! k).
Qed.

(** [.get(k)] returned something other than [None]: the key is there. *)
Lemma dict_get_present j k v :
  dict_get j k = inr v → v ≠ JNull → json_path [k] j = Some v.
Proof.
  destruct j; try done. simpl. intros [= <-].
  by destruct (m !! k).
Qed.

(** [.get(k, {})] returned a non-empty dictionary: the key is there. *)
Lemma dict_get_or_present j k m' :
  dict_get_or j k = inr (JObj m') → m' ≠ ∅ → json_path [k] j = Some (JObj m').
Proof.
  destruct j; try done. simpl. intros [= Heq] Hne.
  destruct (m !! k); simpl in *; [by subst|]. by injection Heq as <-.
Qed.

(** A key that is there is what both forms of [.get] return. *)
Lemma json_path_dict_get j k v :
  json_path [k] j = Some v → dict_get j k = inr v ∧ dict_get_or j k = inr v.
Proof.
  destruct j; try done. simpl. by destruct (m !! k); intros [= ->].
Qed.

Lemma dict_get_is_dict j k v : dict_get j k = inr v → ∃ m, j = JObj m.
Proof. destruct j; try done. eauto. Qed.

Lemma dict_get_or_is_dict j k v : dict_get_or j k = inr v → ∃ m, j = JObj m.
Proof. destruct j; try done. eauto. Qed.

Lemma truthy_not_null v : truthy v = true → v ≠ JNull.
Proof. by intros H ->. Qed.

Lemma json_path_nonempty k j v : json_path [k] j = Some v → ∃ m, j = JObj m ∧ m ≠ ∅.
Proof.
  destruct j; try done. simpl. intros Hk. exists m. split; [done|].
  intros ->. by rewrite lookup_empty in Hk.
Qed.

Lemma json_path_step k ks j v r :
  json_path [k] j = Some v → json_path ks v = r → json_path (k :: ks) j = r.
Proof. intros Hk Hks. by rewrite json_path_cons, Hk. Qed.

(** [.get(k, {})] then [.get(k')] with a result that is not [None]:
    both keys are there. *)
Lemma dict_get_or_get_present j k d k' v :
  dict_get_or j k = inr d → dict_get d k' = inr v → v ≠ JNull →
  json_path [k] j = Some d ∧ json_path [k'] d = Some v.
Proof.
  intros Hd Hv Hne.
  pose proof (dict_get_present d k' v Hv Hne) as Hp.
  destruct (json_path_nonempty k' d v Hp) as (m' & -> & Hm').
  split; [|done]. by apply dict_get_or_present.
Qed.

Lemma json_path_cons_inv k ks j v :
  json_path (k :: ks) j = Some v →
  ∃ x, json_path [k] j = Some x ∧ json_path ks x = Some v.
Proof.
  rewrite json_path_cons. destruct (json_path [k] j) as [x|]; [|done].
  simpl. eauto.
Qed.

(** The chain [data.get("data", {}).get("media")], then
    [media.get("playlist", {}).get("type", {}).get("name")], against the
    strict path [data.media.playlist.type.name]: they agree on every
    value other than [None]. *)
Lemma playlist_type_name_agrees data d media playlist type content_type v :
  dict_get_or data "data" = inr d →
  dict_get d "media" = inr media →
  truthy media = true →
  dict_get_or media "playlist" = inr playlist →
  dict_get_or playlist "type" = inr type →
  dict_get type "name" = inr content_type →
  v ≠ JNull →
  content_type = v ↔ json_path playlist_type_name data = Some v.
Proof.
  intros Hd Hmedia Hmt Hpl Hty Hct Hv. split.
  - intros ->.
    destruct (dict_get_or_get_present _ _ _ _ _ Hty Hct Hv) as [Ht Hn].
    destruct (json_path_nonempty _ _ _ Ht) as (mp & -> & Hmp).
    pose proof (dict_get_or_present _ _ _ Hpl Hmp) as Hp.
    destruct (dict_get_or_get_present _ _ _ _ _ Hd Hmedia
                (truthy_not_null _ Hmt)) as [Hdd Hm].
    unfold playlist_type_name.
    apply (json_path_step _ _ _ _ _ Hdd), (json_path_step _ _ _ _ _ Hm),
          (json_path_step _ _ _ _ _ Hp), (json_path_step _ _ _ _ _ Ht), Hn.
  - unfold playlist_type_name. intros Hpath.
    apply json_path_cons_inv in Hpath as (d' & Hd' & Hpath).
    apply json_path_dict_get in Hd' as [_ Hd']. rewrite Hd in Hd'.
    injection Hd' as <-.
    apply json_path_cons_inv in Hpath as (media' & Hm' & Hpath).
    apply json_path_dict_get in Hm' as [Hm' _]. rewrite Hmedia in Hm'.
    injection Hm' as <-.
    apply json_path_cons_inv in Hpath as (playlist' & Hp' & Hpath).
    apply json_path_dict_get in Hp' as [_ Hp']. rewrite Hpl in Hp'.
    injection Hp' as <-.
    apply json_path_cons_inv in Hpath as (type' & Ht' & Hpath).
    apply json_path_dict_get in Ht' as [_ Ht']. rewrite Hty in Ht'.
    injection Ht' as <-.
    apply json_path_dict_get in Hpath as [Hn _]. rewrite Hct in Hn.
    by injection Hn.
Qed.

End Dictionaries.

(** ** The requests of [get_titles] and [get_tracks] *)

Section Requests.
Import Json Exn ET_path Eff ET BRASIL_PARALELO Spec.
Context {T : Type} (w : World T) (P : event → Prop).

Lemma only_effective_title_id self arg : only P (effective_title_id self arg).
Proof.
  unfold effective_title_id.
  destruct (Py.or_else _ _); [destruct (Py.truthy _)|];
    auto using only_ret, only_raise.
Qed.

Lemma result_effective_title_id self arg tid :
  result (effective_title_id self arg) = inr tid →
  Py.or_else arg (title_id self) = Some tid ∧ tid ≠ "".
Proof.
  unfold effective_title_id.
  destruct (Py.or_else _ _) as [t|]; [|done].
  destruct (Py.truthy (Some t)) eqn:Ht; [|done].
  intros [= ->]. split; [done|].
  apply truthy_Some in Ht as (s & [= <-] & Hs). done.
Qed.

Lemma only_post_json url q mid sl wrap :
  P (EvPost url q mid sl) → only P (post_json w url q mid sl wrap).
Proof.
  intros Hev. unfold post_json.
  apply only_bind; [by apply only_emit|]. intros _ _.
  destruct (http_post _ _ _ _ _); auto using only_ret, only_raise.
Qed.

Lemma result_post_json url q mid sl wrap data :
  result (post_json w url q mid sl wrap) = inr data →
  http_post w url q mid sl = PostJson data.
Proof.
  unfold post_json. rewrite result_emit by regular.
  destruct (http_post _ _ _ _ _); try done. by intros [= ->].
Qed.

Lemma only_check_errors prefix data : only P (check_errors prefix data).
Proof.
  unfold check_errors. apply only_bind; [apply only_lift|].
  intros [] _; [|apply only_ret].
  apply only_bind; [apply only_lift|]. intros. apply only_raise.
Qed.

Lemma only_download_manifest url :
  P (EvGet url) → only P (download_manifest w url).
Proof.
  intros Hev. unfold download_manifest.
  apply only_bind; [by apply only_emit|]. intros _ _.
  destruct (http_get _ _); auto using only_ret, only_raise.
Qed.

Lemma only_root_findall root p : P (EvFindall p) → only P (root_findall root p).
Proof.
  intros Hev. unfold root_findall.
  apply only_bind; [by apply only_emit|]. intros _ _.
  destruct (findall _ _ _); auto using only_ret, only_raise.
Qed.

Lemma only_pssh_loop cps acc :
  P (EvFind pssh_path) → only P (pssh_loop cps acc).
Proof.
  intros Hev. split; [apply regular_pssh_loop|].
  eapply Forall_impl; [apply pssh_loop_calls|]. by intros ev ->.
Qed.

Lemma only_extract_protection url root :
  (∀ ev, search_event ev = true → P ev) →
  only P (extract_protection url root).
Proof.
  intros HP. unfold extract_protection, scan_kid, scan_widevine, scan_fallback.
  apply only_bind.
  { apply only_bind; [by apply only_root_findall, HP|].
    intros. apply only_ret. }
  intros kid _. apply only_bind.
  { destruct (Py.truthy kid); [|apply only_ret].
    apply only_bind; [by apply only_root_findall, HP|].
    intros. by apply only_pssh_loop, HP. }
  intros pssh _. apply only_bind.
  { destruct (_ && _); [|apply only_ret].
    apply only_bind; [by apply only_root_findall, HP|].
    intros. by apply only_pssh_loop, HP. }
  intros pssh' _. destruct (_ || _); [apply only_raise | apply only_ret].
Qed.

Lemma only_extract url text :
  (∀ ev, tree_event ev = true → P ev) → only P (extract w url text).
Proof.
  intros HP. unfold extract, parse_xml. apply only_bind.
  - apply only_bind; [by apply only_emit, HP|]. intros _ _.
    destruct (fromstring _ _); [apply only_raise | apply only_ret].
  - intros root _. apply only_extract_protection.
    intros [] Hev; try done; by apply HP.
Qed.

End Requests.

Section RequestsRegular.
Import Eff BRASIL_PARALELO Spec.
Context {T : Type} (w : World T).

Lemma regular_effective_title_id self arg :
  regular (effective_title_id self arg).
Proof. apply (only_regular (λ _, True)), only_effective_title_id. Qed.

Lemma regular_post_json url q mid sl wrap :
  regular (post_json w url q mid sl wrap).
Proof. by apply (only_regular (λ _, True)), only_post_json. Qed.

Lemma regular_check_errors prefix data : regular (check_errors prefix data).
Proof. apply (only_regular (λ _, True)), only_check_errors. Qed.

Lemma regular_download_manifest url : regular (download_manifest w url).
Proof. by apply (only_regular (λ _, True)), only_download_manifest. Qed.

End RequestsRegular.

#[global] Hint Resolve regular_effective_title_id regular_post_json
  regular_check_errors regular_download_manifest regular_extract : regular.

(** ** The model at work on the samples *)

Section Examples.
Import Json Exn ET_path Eff ET BRASIL_PARALELO Spec Samples.

(** An element holding the literal key goes through all three stages. *)
Example keyed_manifest_is_extracted :
  result (extract_protection sample_url keyed_manifest)
    = inr (Some sample_kid, Some sample_pssh) ∧
  calls (extract_protection sample_url keyed_manifest)
    = [EvFindall mp4protection_path; EvFindall widevine_path; EvFind pssh_path].
Proof. by vm_compute. Qed.

(** The whole of [get_tracks] on the sample world: one POST, one GET for
    the manifest, the parse, the KID query, and the missing-field error. *)
Example get_tracks_on_sample_world :
  result (get_tracks sample_world sample_service None)
    = inl (missing_protection sample_url) ∧
  calls (get_tracks sample_world sample_service None)
    = [EvPost (endpoint_metadata sample_service) MediaSourceQuery
         episode2_title_id (JStr "entre-lobos");
       EvGet sample_url;
       EvFromstring standard_text;
       EvFindall mp4protection_path].
Proof. by vm_compute. Qed.

Example episode1_stream :
  stream_id_for "62b0d862d12d4c0029f05602" = "79f73236-4c3a-4998-8f5d-c14d33a91c9f" ∧
  stream_id_for episode2_title_id = "d7137531-aab7-43f7-a15b-a64b0453b4ca".
Proof. by vm_compute. Qed.

(** With the movie flag the same reply gives one [Movie]. *)
Example flagged_service_gets_movies :
  ∃ self',
    result (get_titles sample_world
              {| title_id := Some episode2_title_id; is_movie := true;
                 endpoint_metadata := endpoint_metadata sample_service;
                 slug := None |} None)
    = inr (Movies [ {| movie_id := episode2_title_id;
                       movie_service := "BRASIL_PARALELO";
                       movie_name := JStr "Entre Lobos 2";
                       movie_year := None;
                       movie_duration := JInt 3600 |} ], self').
Proof. eexists. by vm_compute. Qed.

(** No title id at all: the guard raises before any request. *)
Example no_title_id :
  (get_titles sample_world
     {| title_id := None; is_movie := false;
        endpoint_metadata := endpoint_metadata sample_service;
        slug := None |} None) []
  = (inl (ValueError (FText "Nenhum title_id fornecido.")), []).
Proof. by vm_compute. Qed.

End Examples.

(** * The claims *)

Section Claims.
Import Json Exn ET_path Eff ET BRASIL_PARALELO Spec Samples.

(** The sample manifest is what the parser makes of [standard_text]:
    every attribute name is a parser-made name. *)
Lemma standard_manifest_parsed : parsed standard_manifest.
Proof.
  unfold parsed, parsed_attrib.
  repeat constructor; apply (bool_decide_unpack _); by vm_compute.
Qed.

(** C1 (the code departs from the specification).  [standard_manifest] has one
    mp4protection [ContentProtection] carrying [cenc:default_KID], stored
    by ElementTree under [{urn:mpeg:cenc:2013}default_KID], and one
    Widevine [ContentProtection] whose [cenc:pssh] child has text; yet
    extraction raises the missing-field error instead of returning the
    pair, because [cp.get("cenc:default_KID")] finds no such key. *)
Theorem standard_manifest_is_rejected :
  (∃ cp wv,
      matches standard_manifest mp4protection_path = [cp] ∧
      get cp clark_default_KID = Some sample_kid ∧
      matches standard_manifest widevine_path = [wv] ∧
      pssh_text wv = Some sample_pssh) ∧
  fromstring sample_world standard_text = inr standard_manifest ∧
  result (extract sample_world sample_url standard_text) =
    inl (ValueError (FText
      ("Não foi possível extrair kid ou pssh do manifest MPD: " +:+ sample_url))).
Proof.
  split; [|split].
  - eexists _, _. by vm_compute.
  - reflexivity.
  - rewrite result_extract. change (fromstring _ _) with
      (inr (A:=string) standard_manifest).
    apply parsed_manifest_is_rejected, standard_manifest_parsed.
Qed.

(** C2 (the code departs from the specification).  In
    [standard_manifest] the first element matching the mp4protection
    scheme URI carries [cenc:default_KID], stored by ElementTree under
    [{urn:mpeg:cenc:2013}default_KID], with a non-empty value; the KID
    scan leaves KID unset all the same, because it asks for the key
    [cenc:default_KID]. *)
Theorem default_KID_of_first_match_is_missed :
  fromstring sample_world standard_text = inr standard_manifest ∧
  (∃ cp rest,
      matches standard_manifest mp4protection_path = cp :: rest ∧
      get cp clark_default_KID = Some sample_kid ∧
      get cp kid_key = None) ∧
  result (scan_kid standard_manifest) = inr None.
Proof.
  split; [reflexivity|]. split.
  - eexists _, _. by vm_compute.
  - by vm_compute.
Qed.

(** The first loop as it is written, on any element tree: it ranges over
    the descendants of the root that are [ContentProtection] elements
    with the mp4protection scheme URI, in document order, and stops at
    the first one whose looked-up value is non-empty; the result is falsy
    exactly when no matching element has a non-empty value. *)
Lemma scan_kid_first_nonempty root :
  matches root mp4protection_path =
    List.filter (λ d, has_tag protection_tag d
                      && bool_decide (get d "schemeIdUri" = Some mp4protection_uri))
                (descendants root) ∧
  ∃ kid, result (scan_kid root) = inr kid ∧
    ((Py.truthy kid = true ∧
      ∃ l1 cp l2, matches root mp4protection_path = l1 ++ cp :: l2 ∧
                  Forall (λ c, falsy (kid_value c)) l1 ∧
                  kid_value cp = kid) ∨
     (falsy kid ∧
      Forall (λ c, falsy (kid_value c)) (matches root mp4protection_path))).
Proof.
  split; [apply matches_protection|].
  eexists. split; [apply result_scan_kid|].
  destruct (kid_loop_cases (matches root mp4protection_path))
    as [(l1 & cp & l2 & Heq & Hl1 & Hcp)|Hnone].
  - left. rewrite Heq, (kid_loop_found l1 cp l2 None Hl1 Hcp).
    split; [done|]. by exists l1, cp, l2.
  - right. split; [|done]. by apply kid_loop_none.
Qed.

Lemma fallback_document_parsed : parsed fallback_document.
Proof.
  unfold parsed, parsed_attrib.
  repeat constructor; apply (bool_decide_unpack _); by vm_compute.
Qed.

Lemma no_pssh_document_parsed : parsed no_pssh_document.
Proof.
  unfold parsed, parsed_attrib.
  repeat constructor; apply (bool_decide_unpack _); by vm_compute.
Qed.

(** C3 (the code departs from the specification).  [fallback_text] is a
    manifest whose mp4protection element carries [cenc:default_KID], with
    no Widevine [ContentProtection] and with a PlayReady
    [ContentProtection] whose [cenc:pssh] child has text.  Extraction
    does not fall back to that header: it raises the missing-field error
    after the first query, and the query over every [ContentProtection]
    is never issued. *)
Theorem fallback_is_not_reached :
  fromstring document_world fallback_text = inr fallback_document ∧
  (∃ cp, matches fallback_document mp4protection_path = [cp] ∧
         get cp clark_default_KID = Some sample_kid) ∧
  matches fallback_document widevine_path = [] ∧
  (∃ cp other, matches fallback_document any_protection_path = [other; cp] ∧
               pssh_text other = None ∧ pssh_text cp = Some sample_pssh) ∧
  result (extract document_world sample_url fallback_text) =
    inl (ValueError (FText
      ("Não foi possível extrair kid ou pssh do manifest MPD: " +:+ sample_url))) ∧
  calls (extract document_world sample_url fallback_text) =
    [EvFromstring fallback_text; EvFindall mp4protection_path].
Proof.
  split; [reflexivity|].
  split; [eexists; by vm_compute|].
  split; [by vm_compute|].
  split; [eexists _, _; by vm_compute|].
  rewrite result_extract, calls_extract.
  change (fromstring document_world fallback_text)
    with (inr (A:=string) fallback_document).
  destruct (extract_protection_no_kid sample_url fallback_document) as [-> ->];
    [|done].
  apply parsed_manifest_has_no_kid, fallback_document_parsed.
Qed.

(** C4.  When no mp4protection element yields a non-empty KID value,
    extraction raises, and after parsing the only call made on the tree
    is the mp4protection query: neither the Widevine query, nor the
    fallback query, nor any [find] of a [cenc:pssh] child. *)
Theorem no_kid_fails_without_pssh_search {T} (w : World T) url text root :
  fromstring w text = inr root →
  Forall (λ cp, falsy (kid_value cp)) (matches root mp4protection_path) →
  result (extract w url text) =
    inl (ValueError (FText
      ("Não foi possível extrair kid ou pssh do manifest MPD: " +:+ url))) ∧
  calls (extract w url text) =
    [EvFromstring text; EvFindall mp4protection_path].
Proof.
  intros Hparse Hnone.
  rewrite result_extract, calls_extract, Hparse.
  destruct (extract_protection_no_kid url root) as [-> ->]; [|done].
  by apply kid_loop_none.
Qed.

Lemma no_kid_fails_without_pssh_search_witness :
  result (extract sample_world sample_url standard_text) =
    inl (ValueError (FText
      ("Não foi possível extrair kid ou pssh do manifest MPD: " +:+ sample_url))) ∧
  calls (extract sample_world sample_url standard_text) =
    [EvFromstring standard_text; EvFindall mp4protection_path].
Proof.
  apply (no_kid_fails_without_pssh_search sample_world sample_url
           standard_text standard_manifest).
  - reflexivity.
  - by vm_compute; repeat constructor.
Defined.

(** C5.  When no [cenc:pssh] element anywhere in the document has
    non-empty text, extraction raises an error whose message ends with
    the manifest URL.  This holds whether or not the KID scan finds a
    KID, so it covers every manifest that carries a KID and no protection
    header. *)
Theorem no_pssh_fails_naming_url url root :
  (∀ e, e ∈ iter root → tag e = pssh_tag → falsy (text e)) →
  result (extract_protection url root) =
    inl (ValueError (FText
      ("Não foi possível extrair kid ou pssh do manifest MPD: " +:+ url))).
Proof.
  intros Hnone.
  destruct (Py.truthy (kid_loop (matches root mp4protection_path) None)) eqn:Hkt.
  2:{ by apply extract_protection_no_kid. }
  assert (∀ pred, Forall (λ c, falsy (pssh_text c))
                    (matches root (Descendant content_protection pred))) as Hall.
  { intros pred. apply Forall_forall. intros cp Hcp.
    apply matches_iter in Hcp.
    destruct (pssh_text cp) as [s|] eqn:Hs; [|done].
    apply pssh_text_child in Hs as (e & He & Htag & Htext).
    rewrite <- Htext. apply Hnone; [|done].
    by apply (iter_children root cp e). }
  destruct (pssh_loop_none (matches root widevine_path) None (Hall _) eq_refl)
    as (r & Hr & Hrf).
  rewrite <- result_scan_widevine in Hr.
  destruct (pssh_loop_none (matches root any_protection_path) r (Hall _) Hrf)
    as (r' & Hr' & Hrf').
  rewrite <- result_scan_fallback in Hr'. unfold falsy in *.
  rewrite result_extract_protection, result_scan_kid, Hkt, Hr, Hrf. simpl andb.
  cbv iota. rewrite Hr', Hrf'. reflexivity.
Qed.

Lemma no_pssh_fails_naming_url_witness :
  (∃ cp, matches no_pssh_document mp4protection_path = [cp] ∧
         get cp clark_default_KID = Some sample_kid) ∧
  fromstring document_world no_pssh_text = inr no_pssh_document ∧
  result (extract_protection sample_url no_pssh_document) =
    inl (ValueError (FText
      ("Não foi possível extrair kid ou pssh do manifest MPD: " +:+ sample_url))).
Proof.
  split; [eexists; by vm_compute|]. split; [reflexivity|].
  apply (no_pssh_fails_naming_url sample_url no_pssh_document).
  apply (proj1 (Forall_forall (λ e, tag e = pssh_tag → falsy (text e)) _)).
  vm_compute. repeat constructor; intros [=].
Defined.

(** C6.  When the text is not well-formed XML (the parser raises),
    extraction fails with the parse-failure error carrying the parser's
    message; this is not the missing-field error, and no query is made
    on any tree. *)
Theorem malformed_xml_is_parse_failure {T} (w : World T) url text e :
  fromstring w text = inl e →
  result (extract w url text) =
    inl (ValueError (FText ("Falha ao parsear o manifest MPD XML: " +:+ e))) ∧
  (∀ url', result (extract w url text) ≠ inl (missing_protection url')) ∧
  calls (extract w url text) = [EvFromstring text].
Proof.
  intros Hparse. rewrite result_extract, calls_extract, Hparse.
  split; [done|]. split; [|done].
  intros url'. unfold missing_protection. simpl. intros [=].
Qed.

Lemma malformed_xml_is_parse_failure_witness :
  result (extract sample_world sample_url broken_text) =
    inl (ValueError (FText
      ("Falha ao parsear o manifest MPD XML: " +:+ broken_message))) ∧
  (∀ url', result (extract sample_world sample_url broken_text)
             ≠ inl (missing_protection url')) ∧
  calls (extract sample_world sample_url broken_text) = [EvFromstring broken_text].
Proof.
  apply (malformed_xml_is_parse_failure sample_world sample_url broken_text
           broken_message).
  reflexivity.
Defined.

(** C7.  Extraction run twice on the same manifest text, the second run
    starting from the state the first one leaves, ends in the same
    outcome (the same pair or the same error) and makes the same calls;
    the outcome does not depend on the state a run starts from. *)
Theorem extract_is_repeatable {T} (w : World T) url text tr :
  let first := extract w url text tr in
  let second := extract w url text first.2 in
  second.1 = first.1 ∧
  first.1 = result (extract w url text) ∧
  first.2 = tr ++ calls (extract w url text) ∧
  second.2 = first.2 ++ calls (extract w url text).
Proof.
  cbv zeta. by rewrite !(regular_extract w url text).
Qed.

(** The stream identifier is a function of the title id alone. *)
Lemma stream_id_for_cases tid :
  stream_id_for tid =
  if bool_decide (tid = "62b0d862d12d4c0029f05602")
  then "79f73236-4c3a-4998-8f5d-c14d33a91c9f"
  else "d7137531-aab7-43f7-a15b-a64b0453b4ca".
Proof.
  unfold stream_id_for.
  destruct (String.eqb_spec tid episode1_title_id); by case_bool_decide.
Qed.

(** C8.  Every GET that [get_tracks] issues is for
    [https://stream.brasilparalelo.com.br/<content_id>/<stream_id>/mpd/stream.mpd],
    where the content id is [data.media.source.id] of the API reply and
    the stream id is [79f73236-...] for the title id
    [62b0d862d12d4c0029f05602] and [d7137531-...] for every other one. *)
Theorem manifest_url_of_get_tracks {T} (w : World T) self arg u :
  EvGet u ∈ calls (get_tracks w self arg) →
  ∃ tid data cid,
    Py.or_else arg (title_id self) = Some tid ∧
    source_reply w self tid = PostJson data ∧
    json_path source_id data = Some cid ∧
    u = "https://stream.brasilparalelo.com.br/" +:+ fmt w cid +:+ "/" +:+
        (if bool_decide (tid = "62b0d862d12d4c0029f05602")
         then "79f73236-4c3a-4998-8f5d-c14d33a91c9f"
         else "d7137531-aab7-43f7-a15b-a64b0453b4ca") +:+ "/mpd/stream.mpd".
Proof.
  intros Hin.
  set (Q := λ ev, ∀ u', ev = EvGet u' →
    ∃ tid data cid,
      Py.or_else arg (title_id self) = Some tid ∧
      source_reply w self tid = PostJson data ∧
      json_path source_id data = Some cid ∧
      u' = "https://stream.brasilparalelo.com.br/" +:+ fmt w cid +:+ "/" +:+
           (if bool_decide (tid = "62b0d862d12d4c0029f05602")
            then "79f73236-4c3a-4998-8f5d-c14d33a91c9f"
            else "d7137531-aab7-43f7-a15b-a64b0453b4ca") +:+ "/mpd/stream.mpd").
  assert (only Q (get_tracks w self arg)) as [_ HQ].
  { unfold get_tracks.
    apply only_bind; [apply only_effective_title_id|]. intros tid Htid.
    apply result_effective_title_id in Htid as [Hor _].
    apply only_bind; [apply only_post_json; intros u' [=]|].
    intros data Hdata. apply result_post_json in Hdata.
    apply only_bind; [apply only_check_errors|]. intros _ _.
    apply only_bind; [apply only_lift|]. intros d Hd.
    apply only_bind; [apply only_lift|]. intros media Hmedia.
    destruct (truthy media) eqn:Hmt; [|apply only_raise]. cbn [negb].
    apply only_bind; [apply only_lift|]. intros source Hsource.
    apply only_bind; [apply only_lift|]. intros cid Hcid.
    destruct (truthy cid) eqn:Hct; [|apply only_raise]. cbn [negb]. cbv zeta.
    change (result (lift ?r) = _) with (r = inr d) in Hd.
    change (result (lift ?r) = _) with (r = inr media) in Hmedia.
    change (result (lift ?r) = _) with (r = inr source) in Hsource.
    change (result (lift ?r) = _) with (r = inr cid) in Hcid.
    apply only_bind.
    { apply only_download_manifest. intros u' [= <-].
      exists tid, data, cid. split; [done|]. split; [done|]. split.
      - destruct (dict_get_or_get_present _ _ _ _ _ Hsource Hcid
                    (truthy_not_null _ Hct)) as [Hs Hi].
        destruct (dict_get_or_get_present _ _ _ _ _ Hd Hmedia
                    (truthy_not_null _ Hmt)) as [Hdd Hm].
        unfold source_id.
        apply (json_path_step _ _ _ _ _ Hdd), (json_path_step _ _ _ _ _ Hm),
              (json_path_step _ _ _ _ _ Hs), Hi.
      - unfold manifest_url_for. by rewrite stream_id_for_cases. }
    intros xml _. apply only_bind.
    { apply only_extract. intros [] Hev; try done; intros ? [=]. }
    intros [kid pssh] _.
    apply only_bind; [apply only_emit; intros ? [=]|]. intros _ _.
    apply only_bind; [apply only_lift|]. intros [|t rest] _;
      [apply only_raise | apply only_ret]. }
  rewrite Forall_forall in HQ. by apply (HQ _ Hin).
Qed.

Lemma manifest_url_of_get_tracks_witness :
  ∃ tid data cid,
    Py.or_else None (title_id sample_service) = Some tid ∧
    source_reply sample_world sample_service tid = PostJson data ∧
    json_path source_id data = Some cid ∧
    sample_url =
      "https://stream.brasilparalelo.com.br/" +:+ fmt sample_world cid +:+ "/" +:+
      (if bool_decide (tid = "62b0d862d12d4c0029f05602")
       then "79f73236-4c3a-4998-8f5d-c14d33a91c9f"
       else "d7137531-aab7-43f7-a15b-a64b0453b4ca") +:+ "/mpd/stream.mpd".
Proof.
  apply (manifest_url_of_get_tracks sample_world sample_service None sample_url).
  vm_compute. right. left.
Defined.

(** C9.  [get_chapters] returns the empty list whatever the instance
    and the argument are; it has no failing path. *)
Theorem get_chapters_is_empty {Chapter : Type} self arg :
  get_chapters (Chapter:=Chapter) self arg = [].
Proof. reflexivity. Qed.

(** C10.  Whenever [get_titles] returns, the result is a [Movies] holding
    exactly one [Movie] if and only if the instance was built with the
    movie flag or [data.media.playlist.type.name] of the API reply is
    the string [movie]; otherwise it is a [Series]. *)
Theorem get_titles_movies_iff {T} (w : World T) self arg r self' :
  result (get_titles w self arg) = inr (r, self') →
  ∃ tid data,
    Py.or_else arg (title_id self) = Some tid ∧
    metadata_reply w self tid = PostJson data ∧
    let movie := is_movie self = true ∨
                 json_path playlist_type_name data = Some (JStr "movie") in
    ((∃ m, r = Movies [m]) ↔ movie) ∧
    (¬ movie → ∃ title seasons, r = Series tid title seasons).
Proof.
  intros H. unfold get_titles in H.
  apply result_bind_inr in H as (tid & Htid & H); [|regular..].
  apply result_effective_title_id in Htid as [Hor _].
  apply result_bind_inr in H as (data & Hdata & H); [|regular..].
  apply result_post_json in Hdata.
  apply result_bind_inr in H as ([] & _ & H); [|regular..].
  apply result_bind_inr in H as (d & Hd & H); [|regular..].
  apply result_bind_inr in H as (media & Hmedia & H); [|regular..].
  destruct (truthy media) eqn:Hmt; [|done]. cbn [negb] in H.
  apply result_bind_inr in H as (name & Hname & H); [|regular..].
  destruct (truthy name) eqn:Hnt; [|done]. cbn [negb] in H.
  apply result_bind_inr in H as (playlist & Hpl & H); [|regular..].
  apply result_bind_inr in H as (type & Hty & H); [|regular..].
  apply result_bind_inr in H as (content_type & Hct & H); [|regular..].
  apply result_bind_inr in H as (duration & Hdur & H); [|regular..].
  apply result_bind_inr in H as (playlist' & Hpl' & H); [|regular..].
  apply result_bind_inr in H as (slug_v & Hslug & H); [|regular..].
  destruct (truthy slug_v) eqn:Hst; [|done]. cbn [negb] in H. cbv zeta in H.
  pose proof (playlist_type_name_agrees data d media playlist type content_type
                (JStr "movie") Hd Hmedia Hmt Hpl Hty Hct ltac:(done)) as Hagree.
  exists tid, data. split; [done|]. split; [done|]. cbv zeta.
  destruct (is_movie self || eq_str content_type "movie") eqn:Hcond.
  - injection H as <- <-.
    assert (is_movie self = true ∨
            json_path playlist_type_name data = Some (JStr "movie")) as Hmovie.
    { apply orb_true_iff in Hcond as [?|Heq]; [by left|].
      right. by apply Hagree, eq_str_spec. }
    split; [|done]. split; [done|]. intros _. eauto.
  - apply orb_false_iff in Hcond as [Hflag Heq].
    assert (¬ (is_movie self = true ∨
               json_path playlist_type_name data = Some (JStr "movie")))
      as Hnot.
    { intros [Hf|Hp]; [by rewrite Hflag in Hf|].
      apply Hagree, eq_str_spec in Hp. by rewrite Heq in Hp. }
    apply result_bind_inr in H as (playlist'' & _ & H); [|regular..].
    apply result_bind_inr in H as (pname & _ & H); [|regular..].
    injection H as <- <-.
    split; [|eauto]. split; [|done]. by intros [m [=]].
Qed.

Lemma get_titles_movies_iff_witness :
  ∃ tid data,
    Py.or_else None (title_id sample_service) = Some tid ∧
    metadata_reply sample_world sample_service tid = PostJson data ∧
    let movie := is_movie sample_service = true ∨
                 json_path playlist_type_name data = Some (JStr "movie") in
    ((∃ m, Series episode2_title_id (JStr "Entre Lobos 2")
             [ {| season_name := JStr "Entre Lobos" |} ] = Movies [m]) ↔ movie) ∧
    (¬ movie → ∃ title seasons,
       Series episode2_title_id (JStr "Entre Lobos 2")
         [ {| season_name := JStr "Entre Lobos" |} ] = Series tid title seasons).
Proof.
  apply (get_titles_movies_iff sample_world sample_service None _
           {| title_id := Some episode2_title_id; is_movie := false;
              endpoint_metadata := endpoint_metadata sample_service;
              slug := Some (JStr "entre-lobos") |}).
  by vm_compute.
Defined.

End Claims.

(** * Further properties of the code *)

Section ExtractionMore.
Import Json Exn ET_path Eff ET BRASIL_PARALELO Spec Samples MoreSamples.

Lemma result_ret {A} (a : A) : result (mret a) = inr a.
Proof. reflexivity. Qed.

Lemma calls_ret {A} (a : A) : calls (mret a) = [].
Proof. reflexivity. Qed.

(** X3.  Once the text is parsed, the extraction step fails in one way
    only, the missing-field error naming the manifest URL: the three
    [findall] queries and the [find] calls never raise, both prefixes
    being bound in the [namespaces] map. *)
Theorem extract_protection_raises_only_missing_field url root e :
  result (extract_protection url root) = inl e →
  e = ValueError (FText
        ("Não foi possível extrair kid ou pssh do manifest MPD: " +:+ url)).
Proof.
  intros He.
  rewrite result_extract_protection, result_scan_kid in He.
  destruct (Py.truthy (kid_loop _ None)).
  - rewrite result_scan_widevine in He.
    destruct (pssh_loop_total (matches root widevine_path) None) as (r & Hr).
    rewrite Hr in He. simpl andb in He.
    destruct (Py.truthy r) eqn:Hrt; cbn [negb] in He; cbv iota in He.
    + rewrite result_ret, Hrt in He. done.
    + rewrite result_scan_fallback in He.
      destruct (pssh_loop_total (matches root any_protection_path) r) as (r' & Hr').
      rewrite Hr' in He. destruct (Py.truthy r'); simpl in He; [done|].
      by injection He as <-.
  - rewrite result_ret in He. simpl andb in He. cbv iota in He.
    rewrite result_ret in He. simpl in He. by injection He as <-.
Qed.

Lemma extract_protection_raises_only_missing_field_witness :
  result (extract_protection sample_url standard_manifest)
    = inl (missing_protection sample_url) ∧
  missing_protection sample_url =
    ValueError (FText
      ("Não foi possível extrair kid ou pssh do manifest MPD: " +:+ sample_url)).
Proof.
  split; [by vm_compute|].
  apply (extract_protection_raises_only_missing_field sample_url standard_manifest).
  by vm_compute.
Defined.

(** X4.  Only descendants of the root tagged
    [{urn:mpeg:dash:schema:mpd:2011}ContentProtection] are looked at: when
    there is none (an element without the DASH namespace, or the root
    itself, does not count), extraction raises the missing-field error
    after the first query. *)
Theorem no_protection_element_fails url root :
  Forall (λ d, tag d ≠ protection_tag) (descendants root) →
  result (extract_protection url root) =
    inl (ValueError (FText
      ("Não foi possível extrair kid ou pssh do manifest MPD: " +:+ url))) ∧
  calls (extract_protection url root) = [EvFindall mp4protection_path].
Proof.
  intros Hnone. apply extract_protection_no_kid.
  assert (matches root mp4protection_path = []) as ->; [|done].
  unfold mp4protection_path. rewrite matches_protection.
  induction Hnone as [|d ds Hd _ IH]; [done|]. simpl.
  unfold has_tag at 1. destruct (String.eqb_spec (tag d) protection_tag); done.
Qed.

Lemma no_protection_element_fails_witness :
  result (extract_protection sample_url (keyed_mp4 sample_kid)) =
    inl (ValueError (FText
      ("Não foi possível extrair kid ou pssh do manifest MPD: " +:+ sample_url))) ∧
  calls (extract_protection sample_url (keyed_mp4 sample_kid))
    = [EvFindall mp4protection_path].
Proof.
  apply (no_protection_element_fails sample_url (keyed_mp4 sample_kid)).
  by vm_compute.
Defined.

(** X21.  On every tree whose attribute names are parser-made, extraction
    raises the missing-field error after the mp4protection query alone:
    neither the Widevine query, nor the fallback query, nor any [find] of
    a [cenc:pssh] child is ever made, whatever the document contains. *)
Theorem parsed_manifest_stops_after_first_query url root :
  parsed root →
  result (extract_protection url root) =
    inl (ValueError (FText
      ("Não foi possível extrair kid ou pssh do manifest MPD: " +:+ url))) ∧
  calls (extract_protection url root) = [EvFindall mp4protection_path].
Proof.
  intros Hp. by apply extract_protection_no_kid, parsed_manifest_has_no_kid.
Qed.

Lemma parsed_manifest_stops_after_first_query_witness :
  result (extract_protection sample_url fallback_document) =
    inl (ValueError (FText
      ("Não foi possível extrair kid ou pssh do manifest MPD: " +:+ sample_url))) ∧
  calls (extract_protection sample_url fallback_document)
    = [EvFindall mp4protection_path].
Proof.
  apply (parsed_manifest_stops_after_first_query sample_url fallback_document).
  unfold parsed, parsed_attrib.
  repeat constructor; apply (bool_decide_unpack _); by vm_compute.
Defined.

End ExtractionMore.

Section RequestsMore.
Import Json Exn ET_path Eff ET BRASIL_PARALELO Spec Samples Methods Stages MoreSamples.
Context {T : Type} (w : World T).

Lemma result_lift {A} (r : exn + A) : result (lift r) = r.
Proof. reflexivity. Qed.

Lemma calls_lift {A} (r : exn + A) : calls (lift r) = [].
Proof. reflexivity. Qed.

Lemma calls_raise {A} (e : exn) : calls (raise (A:=A) e) = [].
Proof. reflexivity. Qed.

Lemma result_raise {A} (e : exn) : result (raise (A:=A) e) = inl e.
Proof. reflexivity. Qed.

Lemma calls_effective_title_id self arg : calls (effective_title_id self arg) = [].
Proof.
  unfold effective_title_id.
  destruct (Py.or_else _ _); [destruct (Py.truthy _)|]; done.
Qed.

Lemma effective_title_id_ok self arg tid :
  Py.or_else arg (title_id self) = Some tid → tid ≠ "" →
  result (effective_title_id self arg) = inr tid.
Proof.
  intros Hor Hne. unfold effective_title_id. rewrite Hor.
  by rewrite (truthy_intro tid Hne).
Qed.

Lemma effective_title_id_none self arg :
  Py.truthy (Py.or_else arg (title_id self)) = false →
  result (effective_title_id self arg)
    = inl (ValueError (FText "Nenhum title_id fornecido.")).
Proof.
  intros Hf. unfold effective_title_id.
  destruct (Py.or_else _ _); [by rewrite Hf|done].
Qed.

Lemma calls_post_json url q mid sl wrap :
  calls (post_json w url q mid sl wrap) = [EvPost url q mid sl].
Proof.
  unfold post_json. rewrite calls_emit by regular.
  by destruct (http_post _ _ _ _ _).
Qed.

Lemma result_post_json_reply url q mid sl wrap :
  result (post_json w url q mid sl wrap) =
  match http_post w url q mid sl with
  | PostFailed e => inl (wrap e)
  | PostNotJson e => inl (JSONDecodeError e)
  | PostJson data => inr data
  end.
Proof.
  unfold post_json. rewrite result_emit by regular.
  by destruct (http_post _ _ _ _ _).
Qed.

Lemma calls_check_errors prefix data : calls (check_errors prefix data) = [].
Proof.
  unfold check_errors. rewrite calls_bind by regular.
  rewrite calls_lift, result_lift.
  destruct (contains "errors" data) as [e|[]]; [done| |done].
  rewrite calls_bind by regular. rewrite calls_lift, result_lift.
  by destruct (subscript data "errors").
Qed.

Lemma result_check_errors prefix m :
  result (check_errors prefix (JObj m)) =
  match m !! "errors" with
  | Some errs => inl (ValueError (FData prefix errs))
  | None => inr ()
  end.
Proof.
  unfold check_errors. rewrite result_bind by regular.
  rewrite result_lift. simpl.
  destruct (m !! "errors") as [errs|] eqn:He.
  - rewrite bool_decide_true by eauto.
    rewrite result_bind by regular. by rewrite result_lift.
  - rewrite bool_decide_false; [done|]. by intros [? [=]].
Qed.

Lemma calls_download_manifest url : calls (download_manifest w url) = [EvGet url].
Proof.
  unfold download_manifest. rewrite calls_emit by regular.
  by destruct (http_get w url).
Qed.

Lemma result_download_manifest url :
  result (download_manifest w url) =
  match http_get w url with
  | GetFailed e => inl (Exception (FText ("Falha ao obter manifest MPD: " +:+ e)))
  | GetText body => inr body
  end.
Proof.
  unfold download_manifest. rewrite result_emit by regular.
  by destruct (http_get w url).
Qed.

(** X5.  With a parser that only hands back trees whose attribute names
    are parser-made, [get_tracks] never returns a track list: every run
    ends in an exception, and the host's manifest parser is never
    called. *)
Theorem get_tracks_never_returns self arg :
  (∀ text root, fromstring w text = inr root → parsed root) →
  (∃ e, result (get_tracks w self arg) = inl e) ∧
  Forall (λ ev, ∀ url, ev ≠ EvParseManifest url) (calls (get_tracks w self arg)).
Proof.
  intros Hparser.
  assert (∀ url xml kp, result (extract w url xml) = inr kp → False) as Hnever.
  { intros url xml kp. rewrite result_extract.
    destruct (fromstring w xml) as [msg|root] eqn:Hp; [done|].
    by rewrite (parsed_manifest_is_rejected url root (Hparser _ _ Hp)). }
  split.
  - destruct (result (get_tracks w self arg)) as [e|tracks] eqn:H; [eauto|].
    exfalso. unfold get_tracks in H.
    apply result_bind_inr in H as (tid & _ & H); [|regular..].
    apply result_bind_inr in H as (data & _ & H); [|regular..].
    apply result_bind_inr in H as ([] & _ & H); [|regular..].
    apply result_bind_inr in H as (d & _ & H); [|regular..].
    apply result_bind_inr in H as (media & _ & H); [|regular..].
    destruct (truthy media); [|done]. cbn [negb] in H.
    apply result_bind_inr in H as (source & _ & H); [|regular..].
    apply result_bind_inr in H as (cid & _ & H); [|regular..].
    destruct (truthy cid); [|done]. cbn [negb] in H. cbv zeta in H.
    apply result_bind_inr in H as (xml & _ & H); [|regular..].
    apply result_bind_inr in H as (kp & Hext & _); [|regular..].
    by apply Hnever in Hext.
  - apply (only_bind (λ ev, ∀ url, ev ≠ EvParseManifest url)).
    { apply only_effective_title_id. }
    intros tid _. apply only_bind; [by apply only_post_json|].
    intros data _. apply only_bind; [apply only_check_errors|]. intros _ _.
    apply only_bind; [apply only_lift|]. intros d _.
    apply only_bind; [apply only_lift|]. intros media _.
    destruct (truthy media); [|apply only_raise]. cbn [negb].
    apply only_bind; [apply only_lift|]. intros source _.
    apply only_bind; [apply only_lift|]. intros cid _.
    destruct (truthy cid); [|apply only_raise]. cbn [negb]. cbv zeta.
    apply only_bind; [by apply only_download_manifest|]. intros xml _.
    apply only_bind.
    { apply only_extract. by intros []. }
    intros kp Hext. by apply Hnever in Hext.
Qed.

Lemma regular_tracks_from_manifest self cid url :
  regular (tracks_from_manifest w self cid url).
Proof. unfold tracks_from_manifest. regular. Qed.

(** What a strict path of keys says about the lenient lookups. *)
Lemma json_path2_lookups k1 k2 j v :
  json_path [k1; k2] j = Some v →
  ∃ d, dict_get_or j k1 = inr d ∧ dict_get d k2 = inr v ∧
       dict_get_or d k2 = inr v ∧ truthy d = true.
Proof.
  intros H. apply json_path_cons_inv in H as (d & Hd & H).
  destruct (json_path_nonempty _ _ _ H) as (md & -> & Hne).
  apply json_path_dict_get in Hd as [_ Hd], H as [H H'].
  exists (JObj md). repeat split; try done.
  simpl. by rewrite bool_decide_false.
Qed.

Lemma json_path_cons_nonempty k ks j v :
  json_path (k :: ks) j = Some v → ∃ m, j = JObj m ∧ m ≠ ∅.
Proof.
  intros H. apply json_path_cons_inv in H as (x & Hx & _).
  by apply json_path_nonempty in Hx.
Qed.

Lemma json_path_absent_key k m : json_path [k] (JObj m) = None → m !! k = None.
Proof. simpl. by destruct (m !! k). Qed.

(** Once the API reply holds a content id, [get_tracks] is the source
    request followed by [tracks_from_manifest]. *)
Lemma get_tracks_from_source self arg tid data cid :
  Py.or_else arg (title_id self) = Some tid → tid ≠ "" →
  source_reply w self tid = PostJson data →
  json_path ["errors"] data = None →
  json_path source_id data = Some cid → truthy cid = true →
  let url := manifest_url_for (fmt w cid) (stream_id_for tid) in
  let post := EvPost (endpoint_metadata self) MediaSourceQuery tid
                     (default (JStr "entre-lobos") (slug self)) in
  result (get_tracks w self arg) = result (tracks_from_manifest w self cid url) ∧
  calls (get_tracks w self arg) =
    post :: calls (tracks_from_manifest w self cid url).
Proof.
  intros Hor Hne Hreply Herr Hpath Hct. cbv zeta.
  unfold source_id in Hpath.
  apply json_path_cons_inv in Hpath as (d & Hd & Hpath).
  apply json_path_cons_inv in Hpath as (media & Hm & Hpath).
  destruct (json_path_nonempty _ _ _ Hd) as (m & -> & _).
  apply json_path_absent_key in Herr.
  destruct (json_path2_lookups _ _ _ _ Hpath) as (src & Hsrc & Hid & _ & _).
  destruct (json_path_cons_nonempty _ _ _ _ Hpath) as (mm & -> & Hmm).
  apply json_path_dict_get in Hd as [_ Hd], Hm as [Hm _].
  assert (truthy (JObj mm) = true) as Hmt.
  { simpl. by rewrite bool_decide_false. }
  unfold source_reply in Hreply.
  split.
  - unfold get_tracks.
    rewrite result_bind, (effective_title_id_ok _ _ _ Hor Hne) by regular.
    rewrite result_bind, result_post_json_reply, Hreply by regular.
    rewrite result_bind, result_check_errors, Herr by regular.
    rewrite result_bind, result_lift, Hd by regular.
    rewrite result_bind, result_lift, Hm by regular.
    rewrite Hmt. cbn [negb].
    rewrite result_bind, result_lift, Hsrc by regular.
    rewrite result_bind, result_lift, Hid by regular.
    rewrite Hct. reflexivity.
  - unfold get_tracks.
    rewrite calls_bind, calls_effective_title_id,
      (effective_title_id_ok _ _ _ Hor Hne) by regular.
    rewrite calls_bind, calls_post_json, result_post_json_reply, Hreply by regular.
    rewrite calls_bind, calls_check_errors, result_check_errors, Herr by regular.
    rewrite calls_bind, calls_lift, result_lift, Hd by regular.
    rewrite calls_bind, calls_lift, result_lift, Hm by regular.
    rewrite Hmt. cbn [negb].
    rewrite calls_bind, calls_lift, result_lift, Hsrc by regular.
    rewrite calls_bind, calls_lift, result_lift, Hid by regular.
    rewrite Hct. reflexivity.
Qed.

(** X6.  When the manifest download fails, [get_tracks] raises
    [Exception("Falha ao obter manifest MPD: ...")] with the HTTP error
    text, after exactly the source request and the one GET: nothing is
    parsed. *)
Theorem manifest_download_failure self arg tid data cid e :
  Py.or_else arg (title_id self) = Some tid → tid ≠ "" →
  source_reply w self tid = PostJson data →
  json_path ["errors"] data = None →
  json_path source_id data = Some cid → truthy cid = true →
  http_get w (manifest_url_for (fmt w cid) (stream_id_for tid)) = GetFailed e →
  result (get_tracks w self arg) =
    inl (Exception (FText ("Falha ao obter manifest MPD: " +:+ e))) ∧
  calls (get_tracks w self arg) =
    [EvPost (endpoint_metadata self) MediaSourceQuery tid
            (default (JStr "entre-lobos") (slug self));
     EvGet (manifest_url_for (fmt w cid) (stream_id_for tid))].
Proof.
  intros Hor Hne Hreply Herr Hpath Hct Hget.
  destruct (get_tracks_from_source self arg tid data cid Hor Hne Hreply Herr
              Hpath Hct) as [-> ->].
  unfold tracks_from_manifest.
  rewrite result_bind, calls_bind by regular.
  by rewrite result_download_manifest, calls_download_manifest, Hget.
Qed.

(** X7.  When the API reply carries an [errors] entry, [get_tracks] raises
    a [ValueError] holding it, even if the reply also has the content id,
    and stops after the source request: no manifest is downloaded. *)
Theorem source_errors_stop_get_tracks self arg tid m errs :
  Py.or_else arg (title_id self) = Some tid → tid ≠ "" →
  source_reply w self tid = PostJson (JObj m) →
  m !! "errors" = Some errs →
  result (get_tracks w self arg) =
    inl (ValueError (FData "Erros na resposta da API para tracks: " errs)) ∧
  calls (get_tracks w self arg) =
    [EvPost (endpoint_metadata self) MediaSourceQuery tid
            (default (JStr "entre-lobos") (slug self))].
Proof.
  intros Hor Hne Hreply Herr. unfold source_reply in Hreply. split.
  - unfold get_tracks.
    rewrite result_bind, (effective_title_id_ok _ _ _ Hor Hne) by regular.
    rewrite result_bind, result_post_json_reply, Hreply by regular.
    rewrite result_bind, result_check_errors, Herr by regular. done.
  - unfold get_tracks.
    rewrite calls_bind, calls_effective_title_id,
      (effective_title_id_ok _ _ _ Hor Hne) by regular.
    rewrite calls_bind, calls_post_json, result_post_json_reply, Hreply by regular.
    rewrite calls_bind, calls_check_errors, result_check_errors, Herr by regular.
    done.
Qed.

(** X8.  Without a usable title id (argument and instance field both
    [None] or empty) [get_titles] and [get_tracks] raise
    [ValueError("Nenhum title_id fornecido.")] before any request. *)
Theorem no_title_id_no_request self arg :
  Py.truthy (Py.or_else arg (title_id self)) = false →
  (result (get_titles w self arg)
     = inl (ValueError (FText "Nenhum title_id fornecido.")) ∧
   calls (get_titles w self arg) = []) ∧
  (result (get_tracks w self arg)
     = inl (ValueError (FText "Nenhum title_id fornecido.")) ∧
   calls (get_tracks w self arg) = []).
Proof.
  intros Hf. pose proof (effective_title_id_none self arg Hf) as He.
  repeat split.
  - unfold get_titles. by rewrite result_bind, He by regular.
  - unfold get_titles.
    by rewrite calls_bind, calls_effective_title_id, He by regular.
  - unfold get_tracks. by rewrite result_bind, He by regular.
  - unfold get_tracks.
    by rewrite calls_bind, calls_effective_title_id, He by regular.
Qed.

Lemma only_nil {A} (m : M A) : only (λ _, False) m → calls m = [].
Proof.
  intros [_ Hc]. destruct (calls m) as [|ev cs]; [done|].
  by apply Forall_cons in Hc as [? _].
Qed.

(** The single call of [get_titles]. *)
Lemma get_titles_one_request_calls self arg tid :
  Py.or_else arg (title_id self) = Some tid → tid ≠ "" →
  calls (get_titles w self arg) =
    [EvPost (endpoint_metadata self) MediaMetadataQuery tid (JStr "entre-lobos")].
Proof.
  intros Hor Hne. unfold get_titles.
  rewrite calls_bind, calls_effective_title_id,
    (effective_title_id_ok _ _ _ Hor Hne) by regular.
  rewrite calls_bind, calls_post_json by regular. simpl. f_equal.
  destruct (result (post_json _ _ _ _ _ _)) as [e|data]; [done|].
  apply only_nil.
  apply only_bind; [apply only_check_errors|]. intros _ _.
  apply only_bind; [apply only_lift|]. intros d _.
  apply only_bind; [apply only_lift|]. intros media _.
  destruct (truthy media); [|apply only_raise]. cbn [negb].
  apply only_bind; [apply only_lift|]. intros name _.
  destruct (truthy name); [|apply only_raise]. cbn [negb].
  apply only_bind; [apply only_lift|]. intros playlist _.
  apply only_bind; [apply only_lift|]. intros type _.
  apply only_bind; [apply only_lift|]. intros content_type _.
  apply only_bind; [apply only_lift|]. intros duration _.
  apply only_bind; [apply only_lift|]. intros playlist' _.
  apply only_bind; [apply only_lift|]. intros slug_v _.
  destruct (truthy slug_v); [|apply only_raise]. cbn [negb]. cbv zeta.
  destruct (_ || _); [apply only_ret|].
  apply only_bind; [apply only_lift|]. intros playlist'' _.
  apply only_bind; [apply only_lift|]. intros pname _. apply only_ret.
Qed.

(** X9.  [get_titles] makes exactly one request, the metadata query for
    the title id with the fixed slug [entre-lobos], whatever the reply is
    and whatever slug the instance already holds. *)
Theorem get_titles_one_request self arg tid :
  Py.or_else arg (title_id self) = Some tid → tid ≠ "" →
  calls (get_titles w self arg) =
    [EvPost (endpoint_metadata self) MediaMetadataQuery tid (JStr "entre-lobos")].
Proof. apply get_titles_one_request_calls. Qed.

Lemma dict_get_lookup m k v :
  dict_get (JObj m) k = inr v → v = default JNull (json_path [k] (JObj m)).
Proof. simpl. intros [= <-]. by destruct (m !! k). Qed.

(** Everything a successful [get_titles] went through. *)
Lemma get_titles_inv self arg r self' :
  result (get_titles w self arg) = inr (r, self') →
  ∃ tid data name sl,
    Py.or_else arg (title_id self) = Some tid ∧ tid ≠ "" ∧
    metadata_reply w self tid = PostJson data ∧
    json_path ["errors"] data = None ∧
    json_path ["data"; "media"; "name"] data = Some name ∧ truthy name = true ∧
    json_path ["data"; "media"; "playlist"; "slug"] data = Some sl ∧
    truthy sl = true ∧
    self' = {| title_id := title_id self; is_movie := is_movie self;
               endpoint_metadata := endpoint_metadata self; slug := Some sl |} ∧
    (r = Movies [ {| movie_id := tid; movie_service := "BRASIL_PARALELO";
                     movie_name := name; movie_year := None;
                     movie_duration :=
                       default JNull
                         (json_path ["data"; "media"; "duration"] data) |} ] ∨
     ∃ pname, r = Series tid name [ {| season_name := pname |} ]).
Proof.
  intros H. unfold get_titles in H.
  apply result_bind_inr in H as (tid & Htid & H); [|regular..].
  apply result_effective_title_id in Htid as [Hor Hne].
  apply result_bind_inr in H as (data & Hdata & H); [|regular..].
  apply result_post_json in Hdata.
  apply result_bind_inr in H as ([] & Herr & H); [|regular..].
  apply result_bind_inr in H as (d & Hd & H); [|regular..].
  apply result_bind_inr in H as (media & Hmedia & H); [|regular..].
  destruct (truthy media) eqn:Hmt; [|done]. cbn [negb] in H.
  apply result_bind_inr in H as (name & Hname & H); [|regular..].
  destruct (truthy name) eqn:Hnt; [|done]. cbn [negb] in H.
  apply result_bind_inr in H as (playlist & Hpl & H); [|regular..].
  apply result_bind_inr in H as (type & Hty & H); [|regular..].
  apply result_bind_inr in H as (content_type & Hct & H); [|regular..].
  apply result_bind_inr in H as (duration & Hdur & H); [|regular..].
  apply result_bind_inr in H as (playlist' & Hpl' & H); [|regular..].
  apply result_bind_inr in H as (slug_v & Hslug & H); [|regular..].
  destruct (truthy slug_v) eqn:Hst; [|done]. cbn [negb] in H. cbv zeta in H.
  rewrite result_lift in Hd, Hmedia, Hname, Hdur, Hpl', Hslug.
  destruct (dict_get_or_get_present _ _ _ _ _ Hd Hmedia (truthy_not_null _ Hmt))
    as [Hpd Hpm].
  destruct (dict_get_or_get_present _ _ _ _ _ Hpl' Hslug (truthy_not_null _ Hst))
    as [Hpp Hps].
  pose proof (dict_get_present _ _ _ Hname (truthy_not_null _ Hnt)) as Hpn.
  destruct (dict_get_or_is_dict _ _ _ Hd) as (m & ->).
  rewrite result_check_errors in Herr.
  exists tid, (JObj m), name, slug_v.
  split; [done|]. split; [done|]. split; [done|].
  split. { simpl. by destruct (m !! "errors"). }
  split. { apply (json_path_step _ _ _ _ _ Hpd), (json_path_step _ _ _ _ _ Hpm), Hpn. }
  split; [done|].
  split. { apply (json_path_step _ _ _ _ _ Hpd), (json_path_step _ _ _ _ _ Hpm),
             (json_path_step _ _ _ _ _ Hpp), Hps. }
  split; [done|].
  destruct (_ || _).
  - injection H as <- <-. split; [done|]. left. do 2 f_equal.
    destruct (dict_get_is_dict _ _ _ Hname) as (mm & ->).
    rewrite (dict_get_lookup _ _ _ Hdur). f_equal. f_equal. symmetry.
    apply (json_path_step _ _ _ _ _ Hpd), (json_path_step _ _ _ _ _ Hpm).
    reflexivity.
  - apply result_bind_inr in H as (playlist'' & _ & H); [|regular..].
    apply result_bind_inr in H as (pname & _ & H); [|regular..].
    injection H as <- <-. split; [done|]. right. eauto.
Qed.

(** X10.  A successful [get_titles] needs a non-empty [data.media.name] and
    a non-empty [data.media.playlist.slug] in the reply, with or without
    the movie flag; it stores that slug on the instance, leaves the other
    fields alone, and the [Movie] or [Series] it returns carries the title
    id and that name. *)
Theorem get_titles_success_fields self arg r self' :
  result (get_titles w self arg) = inr (r, self') →
  ∃ tid data name sl,
    Py.or_else arg (title_id self) = Some tid ∧
    metadata_reply w self tid = PostJson data ∧
    json_path ["data"; "media"; "name"] data = Some name ∧ truthy name = true ∧
    json_path ["data"; "media"; "playlist"; "slug"] data = Some sl ∧
    truthy sl = true ∧
    self' = {| title_id := title_id self; is_movie := is_movie self;
               endpoint_metadata := endpoint_metadata self; slug := Some sl |} ∧
    (r = Movies [ {| movie_id := tid; movie_service := "BRASIL_PARALELO";
                     movie_name := name; movie_year := None;
                     movie_duration :=
                       default JNull
                         (json_path ["data"; "media"; "duration"] data) |} ] ∨
     ∃ pname, r = Series tid name [ {| season_name := pname |} ]).
Proof.
  intros H.
  destruct (get_titles_inv self arg r self' H)
    as (tid & data & name & sl & ? & _ & ? & _ & ? & ? & ? & ? & ? & ?).
  by exists tid, data, name, sl.
Qed.


Lemma calls_extract_protection_search url root :
  Forall (λ ev, search_event ev = true) (calls (extract_protection url root)).
Proof. by apply (only_extract_protection (λ ev, search_event ev = true)). Qed.

(** The calls of the second half of [get_tracks]. *)
Lemma calls_tracks_from_manifest self cid url :
  calls (tracks_from_manifest w self cid url) = [EvGet url] ∨
  ∃ xml searches last,
    http_get w url = GetText xml ∧
    calls (tracks_from_manifest w self cid url)
      = EvGet url :: EvFromstring xml :: searches ++ last ∧
    Forall (λ ev, search_event ev = true) searches ∧
    (last = [] ∨ last = [EvParseManifest url]).
Proof.
  unfold tracks_from_manifest.
  rewrite calls_bind, calls_download_manifest, result_download_manifest by regular.
  destruct (http_get w url) as [e|xml] eqn:Hget; [by left|].
  right. exists xml. rewrite calls_bind, calls_extract by regular.
  eexists _, _. split; [done|]. split; [reflexivity|]. split.
  - destruct (fromstring w xml) as [msg|root]; [constructor|].
    apply calls_extract_protection_search.
  - destruct (result (extract w url xml)) as [e|[kid pssh]]; [by left|].
    right. rewrite calls_emit by regular. f_equal.
    rewrite calls_bind, calls_lift, result_lift by regular.
    by destruct (parse_manifest w url) as [e|[|t rest]].
Qed.

(** X12.  A run of [get_tracks] makes its calls in a fixed order and each
    at most once: the source request, then one GET, then one parse of the
    body that GET returned, then tree queries, and last, at most once, the
    host's manifest parser for the same URL.  There is no retry and no
    second request. *)
Theorem get_tracks_call_sequence self arg :
  calls (get_tracks w self arg) = [] ∨
  ∃ tid, Py.or_else arg (title_id self) = Some tid ∧
    let post := EvPost (endpoint_metadata self) MediaSourceQuery tid
                       (default (JStr "entre-lobos") (slug self)) in
    (calls (get_tracks w self arg) = [post] ∨
     ∃ url,
       calls (get_tracks w self arg) = [post; EvGet url] ∨
       ∃ xml searches last,
         http_get w url = GetText xml ∧
         calls (get_tracks w self arg)
           = post :: EvGet url :: EvFromstring xml :: searches ++ last ∧
         Forall (λ ev, search_event ev = true) searches ∧
         (last = [] ∨ last = [EvParseManifest url])).
Proof.
  unfold get_tracks at 1.
  rewrite calls_bind, calls_effective_title_id by regular.
  destruct (result (effective_title_id self arg)) as [e|tid] eqn:Htid; [by left|].
  right. exists tid.
  apply result_effective_title_id in Htid as [Hor Hne]. split; [done|].
  cbv zeta. unfold get_tracks.
  rewrite calls_bind, calls_effective_title_id,
    (effective_title_id_ok _ _ _ Hor Hne) by regular.
  rewrite calls_bind, calls_post_json by regular.
  destruct (result (post_json _ _ _ _ _ _)) as [e|data]; [by left|].
  rewrite calls_bind, calls_check_errors by regular.
  destruct (result (check_errors _ _)) as [e|[]]; [by left|].
  rewrite calls_bind, calls_lift, result_lift by regular.
  destruct (dict_get_or data "data") as [e|d]; [by left|].
  rewrite calls_bind, calls_lift, result_lift by regular.
  destruct (dict_get d "media") as [e|media]; [by left|].
  destruct (truthy media); [|by left]. cbn [negb].
  rewrite calls_bind, calls_lift, result_lift by regular.
  destruct (dict_get_or media "source") as [e|source]; [by left|].
  rewrite calls_bind, calls_lift, result_lift by regular.
  destruct (dict_get source "id") as [e|cid]; [by left|].
  destruct (truthy cid); [|by left]. cbn [negb]. cbv zeta.
  right. exists (manifest_url_for (fmt w cid) (stream_id_for tid)).
  destruct (calls_tracks_from_manifest self cid
              (manifest_url_for (fmt w cid) (stream_id_for tid)))
    as [Hc|(xml & searches & last & Hget & Hc & Hsearch & Hlast)].
  - left. unfold tracks_from_manifest in Hc. simpl. by rewrite Hc.
  - right. exists xml, searches, last. split; [done|]. split; [|done].
    unfold tracks_from_manifest in Hc. simpl. by rewrite Hc.
Qed.

Lemma get_tracks_calls_head self arg tid :
  Py.or_else arg (title_id self) = Some tid → tid ≠ "" →
  ∃ rest, calls (get_tracks w self arg) =
    EvPost (endpoint_metadata self) MediaSourceQuery tid
           (default (JStr "entre-lobos") (slug self)) :: rest.
Proof.
  intros Hor Hne. unfold get_tracks.
  rewrite calls_bind, calls_effective_title_id,
    (effective_title_id_ok _ _ _ Hor Hne) by regular.
  rewrite calls_bind, calls_post_json by regular. simpl. eauto.
Qed.

Lemma regular_get_titles self arg : regular (get_titles w self arg).
Proof. unfold get_titles. regular. Qed.

Lemma regular_get_tracks self arg : regular (get_tracks w self arg).
Proof. unfold get_tracks. regular. Qed.

(** X14.  In [cli], when [get_titles] succeeds, the source request of
    [get_tracks] carries the slug [get_titles] took from
    [data.media.playlist.slug] of the metadata reply, not the fixed
    [entre-lobos] the metadata request itself was sent with. *)
Theorem cli_sends_slug_of_reply title movie endpoint titles service :
  result (get_titles w (new_instance title movie endpoint) None)
    = inr (titles, service) →
  ∃ data sl rest,
    metadata_reply w (new_instance title movie endpoint) title = PostJson data ∧
    json_path ["data"; "media"; "playlist"; "slug"] data = Some sl ∧
    calls (cli w title movie endpoint) =
      EvPost endpoint MediaMetadataQuery title (JStr "entre-lobos")
      :: EvPost endpoint MediaSourceQuery title sl :: rest.
Proof.
  intros H.
  destruct (get_titles_inv _ _ _ _ H)
    as (tid & data & name & sl & Hor & Hne & Hreply & _ & _ & _ & Hsl & _ & Hs & _).
  injection Hor as <-.
  exists data, sl.
  destruct (get_tracks_calls_head service None title) as (rest & Hrest).
  { by subst service. }
  { done. }
  exists (rest ++ []). split; [done|]. split; [done|].
  unfold cli. cbv zeta.
  rewrite calls_bind; [|apply regular_get_titles|].
  2:{ intros [t s]. apply regular_bind; [apply regular_get_tracks|].
      intros. apply regular_ret. }
  rewrite H.
  rewrite (get_titles_one_request_calls (new_instance title movie endpoint) None title)
    by done.
  rewrite calls_bind; [|apply regular_get_tracks | intros; apply regular_ret].
  rewrite Hrest. subst service. simpl.
  by destruct (result (get_tracks _ _ _)).
Qed.

End RequestsMore.

Section RequestsMoreWitnesses.
Import Json Exn ET_path Eff ET BRASIL_PARALELO Spec Samples Methods Stages MoreSamples.

Lemma sample_world_parser text root :
  fromstring sample_world text = inr root → parsed root.
Proof.
  simpl. repeat case_bool_decide; intros [= <-].
  apply standard_manifest_parsed.
Qed.

Lemma get_tracks_never_returns_witness :
  (∃ e, result (get_tracks sample_world sample_service None) = inl e) ∧
  Forall (λ ev, ∀ url, ev ≠ EvParseManifest url)
         (calls (get_tracks sample_world sample_service None)).
Proof.
  apply (get_tracks_never_returns sample_world sample_service None).
  exact sample_world_parser.
Defined.

Lemma manifest_download_failure_witness :
  result (get_tracks offline_world sample_service None) =
    inl (Exception (FText ("Falha ao obter manifest MPD: " +:+ "503 Server Error"))) ∧
  calls (get_tracks offline_world sample_service None) =
    [EvPost (endpoint_metadata sample_service) MediaSourceQuery episode2_title_id
            (default (JStr "entre-lobos") (slug sample_service));
     EvGet (manifest_url_for (fmt offline_world (JStr "5f1a"))
                             (stream_id_for episode2_title_id))].
Proof.
  apply (manifest_download_failure offline_world sample_service None
           episode2_title_id source_data (JStr "5f1a") "503 Server Error").
  - reflexivity.
  - discriminate.
  - reflexivity.
  - by vm_compute.
  - by vm_compute.
  - reflexivity.
  - reflexivity.
Defined.

Lemma source_errors_stop_get_tracks_witness :
  result (get_tracks errors_world sample_service None) =
    inl (ValueError (FData "Erros na resposta da API para tracks: "
                           (JArr [JStr "unauthorized"]))) ∧
  calls (get_tracks errors_world sample_service None) =
    [EvPost (endpoint_metadata sample_service) MediaSourceQuery episode2_title_id
            (default (JStr "entre-lobos") (slug sample_service))].
Proof.
  apply (source_errors_stop_get_tracks errors_world sample_service None
           episode2_title_id errors_map (JArr [JStr "unauthorized"])).
  - reflexivity.
  - discriminate.
  - reflexivity.
  - by vm_compute.
Defined.

Lemma no_title_id_no_request_witness :
  (result (get_titles sample_world
             {| title_id := None; is_movie := false;
                endpoint_metadata := endpoint_metadata sample_service;
                slug := None |} (Some ""))
     = inl (ValueError (FText "Nenhum title_id fornecido.")) ∧
   calls (get_titles sample_world
            {| title_id := None; is_movie := false;
               endpoint_metadata := endpoint_metadata sample_service;
               slug := None |} (Some "")) = []) ∧
  (result (get_tracks sample_world
             {| title_id := None; is_movie := false;
                endpoint_metadata := endpoint_metadata sample_service;
                slug := None |} (Some ""))
     = inl (ValueError (FText "Nenhum title_id fornecido.")) ∧
   calls (get_tracks sample_world
            {| title_id := None; is_movie := false;
               endpoint_metadata := endpoint_metadata sample_service;
               slug := None |} (Some "")) = []).
Proof.
  apply (no_title_id_no_request sample_world).
  reflexivity.
Defined.

Lemma get_titles_one_request_witness :
  calls (get_titles sample_world sample_service None) =
    [EvPost (endpoint_metadata sample_service) MediaMetadataQuery
            episode2_title_id (JStr "entre-lobos")].
Proof.
  apply (get_titles_one_request sample_world sample_service None episode2_title_id).
  - reflexivity.
  - discriminate.
Defined.

Lemma get_titles_success_fields_witness :
  ∃ tid data name sl,
    Py.or_else None (title_id flagged_service) = Some tid ∧
    metadata_reply sample_world flagged_service tid = PostJson data ∧
    json_path ["data"; "media"; "name"] data = Some name ∧ truthy name = true ∧
    json_path ["data"; "media"; "playlist"; "slug"] data = Some sl ∧
    truthy sl = true ∧
    {| title_id := Some episode2_title_id; is_movie := true;
       endpoint_metadata := endpoint_metadata sample_service;
       slug := Some (JStr "entre-lobos") |}
    = {| title_id := title_id flagged_service; is_movie := is_movie flagged_service;
         endpoint_metadata := endpoint_metadata flagged_service; slug := Some sl |} ∧
    (Movies [ {| movie_id := episode2_title_id; movie_service := "BRASIL_PARALELO";
                 movie_name := JStr "Entre Lobos 2"; movie_year := None;
                 movie_duration := JInt 3600 |} ]
     = Movies [ {| movie_id := tid; movie_service := "BRASIL_PARALELO";
                   movie_name := name; movie_year := None;
                   movie_duration :=
                     default JNull
                       (json_path ["data"; "media"; "duration"] data) |} ] ∨
     ∃ pname,
       Movies [ {| movie_id := episode2_title_id; movie_service := "BRASIL_PARALELO";
                   movie_name := JStr "Entre Lobos 2"; movie_year := None;
                   movie_duration := JInt 3600 |} ]
       = Series tid name [ {| season_name := pname |} ]).
Proof.
  apply (get_titles_success_fields sample_world flagged_service None).
  by vm_compute.
Defined.


Lemma cli_sends_slug_of_reply_witness :
  ∃ data sl rest,
    metadata_reply sample_world
      (new_instance episode2_title_id false "https://api.example/graphql")
      episode2_title_id = PostJson data ∧
    json_path ["data"; "media"; "playlist"; "slug"] data = Some sl ∧
    calls (cli sample_world episode2_title_id false "https://api.example/graphql") =
      EvPost "https://api.example/graphql" MediaMetadataQuery episode2_title_id
             (JStr "entre-lobos")
      :: EvPost "https://api.example/graphql" MediaSourceQuery episode2_title_id sl
      :: rest.
Proof.
  eapply (cli_sends_slug_of_reply sample_world episode2_title_id false
            "https://api.example/graphql").
  by vm_compute.
Defined.

End RequestsMoreWitnesses.

Section SearchFacts.
Import Json Exn BRASIL_PARALELO Methods MoreSamples.

(** What [search] needs of one entry of the reply. *)
Lemma search_entry_ok r o :
  search_entry r = inr o ↔
  ∃ mr, r = JObj mr ∧ mr !! "name" = Some (result_title o) ∧
        mr !! "id" = Some (result_id o) ∧ mr !! "type" = Some (result_type o).
Proof.
  unfold search_entry. split.
  - destruct r; try done. simpl.
    destruct (m !! "name") as [n|] eqn:Hn; [|done].
    destruct (m !! "id") as [i|] eqn:Hi; [|done].
    destruct (m !! "type") as [t|] eqn:Ht; [|done].
    intros [= <-]. by exists m.
  - intros (mr & -> & Hn & Hi & Ht). simpl. rewrite Hn, Hi, Ht. by destruct o.
Qed.

Lemma search_entry_error r e :
  search_entry r = inl e →
  e = TypeError ∨ e = KeyError (FText "name") ∨ e = KeyError (FText "id")
  ∨ e = KeyError (FText "type").
Proof.
  unfold search_entry. destruct r; simpl; try (intros [= <-]; by left).
  destruct (m !! "name"); [|intros [= <-]; auto].
  destruct (m !! "id"); [|intros [= <-]; auto].
  destruct (m !! "type"); [done|intros [= <-]; auto].
Qed.

Lemma search_entries_ok l out :
  search_entries l = inr out ↔
  Forall2 (λ r o, ∃ mr, r = JObj mr ∧ mr !! "name" = Some (result_title o) ∧
                        mr !! "id" = Some (result_id o) ∧
                        mr !! "type" = Some (result_type o)) l out.
Proof.
  revert out. induction l as [|r l IH]; intros out; simpl.
  - split; [intros [= <-]; constructor | by intros ->%Forall2_nil_inv_l].
  - split.
    + destruct (search_entry r) as [e|o] eqn:Hr; [done|].
      destruct (search_entries l) as [e|os] eqn:Hl; [done|].
      intros [= <-]. constructor; [by apply search_entry_ok | by apply IH].
    + intros (o & os & Ho & Hos & ->)%Forall2_cons_inv_l.
      apply search_entry_ok in Ho. apply IH in Hos. by rewrite Ho, Hos.
Qed.

Lemma search_entries_error l e :
  search_entries l = inl e →
  e = TypeError ∨ e = KeyError (FText "name") ∨ e = KeyError (FText "id")
  ∨ e = KeyError (FText "type").
Proof.
  induction l as [|r l IH]; simpl; [done|].
  destruct (search_entry r) as [e'|o] eqn:Hr.
  - intros [= <-]. by apply search_entry_error in Hr.
  - destruct (search_entries l) as [e'|os]; [|done].
    intros [= <-]. by apply IH.
Qed.

(** X15.  For a reply object whose [results] is a list (or is missing,
    which counts as the empty list), [search] returns a list exactly when
    every entry is an object with the keys [name], [id] and [type]; the
    result then has one entry per reply entry, in the same order, holding
    those three values. *)
Theorem search_maps_every_entry session_get query m l out :
  session_get (base_url +:+ "/api/search") query = PostJson (JObj m) →
  default (JArr []) (m !! "results") = JArr l →
  search session_get query = inr out ↔
  Forall2 (λ r o, ∃ mr, r = JObj mr ∧ mr !! "name" = Some (result_title o) ∧
                        mr !! "id" = Some (result_id o) ∧
                        mr !! "type" = Some (result_type o)) l out.
Proof.
  intros Hreply Hres. unfold search. rewrite Hreply. simpl. rewrite Hres. simpl.
  rewrite <- search_entries_ok.
  destruct (search_entries l); split; congruence.
Qed.

Lemma search_maps_every_entry_witness :
  search (λ _ _, PostJson search_reply) "lobos"
    = inr [ {| result_title := JStr "Entre Lobos"; result_id := JStr "a1";
               result_type := JStr "series" |};
            {| result_title := JStr "Patria"; result_id := JStr "b2";
               result_type := JStr "movie" |} ] ↔
  Forall2 (λ r o, ∃ mr, r = JObj mr ∧ mr !! "name" = Some (result_title o) ∧
                        mr !! "id" = Some (result_id o) ∧
                        mr !! "type" = Some (result_type o))
    [ JObj {[ "name" := JStr "Entre Lobos"; "id" := JStr "a1"; "type" := JStr "series" ]};
      JObj {[ "name" := JStr "Patria"; "id" := JStr "b2"; "type" := JStr "movie" ]} ]
    [ {| result_title := JStr "Entre Lobos"; result_id := JStr "a1";
         result_type := JStr "series" |};
      {| result_title := JStr "Patria"; result_id := JStr "b2";
         result_type := JStr "movie" |} ].
Proof.
  apply (search_maps_every_entry (λ _ _, PostJson search_reply) "lobos"
           {[ "results" := JArr [
                JObj {[ "name" := JStr "Entre Lobos"; "id" := JStr "a1";
                        "type" := JStr "series" ]};
                JObj {[ "name" := JStr "Patria"; "id" := JStr "b2";
                        "type" := JStr "movie" ]} ] ]}).
  - reflexivity.
  - by vm_compute.
Defined.

(** X16.  One entry of the reply list that is not an object, or lacks one
    of the three keys, fails the whole search with [TypeError] or
    [KeyError]: no partial list is returned. *)
Theorem search_bad_entry_fails session_get query m l r :
  session_get (base_url +:+ "/api/search") query = PostJson (JObj m) →
  m !! "results" = Some (JArr l) →
  r ∈ l →
  (∀ mr, r = JObj mr →
         mr !! "name" = None ∨ mr !! "id" = None ∨ mr !! "type" = None) →
  ∃ e, search session_get query = inl (Raised e) ∧
       (e = TypeError ∨ e = KeyError (FText "name") ∨ e = KeyError (FText "id")
        ∨ e = KeyError (FText "type")).
Proof.
  intros Hreply Hres Hin Hbad. unfold search. rewrite Hreply. simpl.
  rewrite Hres. simpl.
  destruct (search_entries l) as [e|out] eqn:Hl.
  - exists e. split; [done|]. by apply search_entries_error in Hl.
  - exfalso. apply search_entries_ok in Hl.
    apply list_elem_of_lookup in Hin as (i & Hi).
    destruct (Forall2_lookup_l _ _ _ _ _ Hl Hi) as (o & _ & mr & -> & Hn & Hd & Ht).
    destruct (Hbad mr eq_refl) as [H|[H|H]]; congruence.
Qed.

Lemma search_bad_entry_fails_witness :
  ∃ e, search (λ _ _, PostJson (JObj {[ "results" := JArr [
           JObj {[ "name" := JStr "Entre Lobos"; "id" := JStr "a1";
                   "type" := JStr "series" ]};
           JObj {[ "name" := JStr "Patria"; "type" := JStr "movie" ]} ] ]}))
         "lobos" = inl (Raised e) ∧
       (e = TypeError ∨ e = KeyError (FText "name") ∨ e = KeyError (FText "id")
        ∨ e = KeyError (FText "type")).
Proof.
  eapply (search_bad_entry_fails _ "lobos" _ _
            (JObj {[ "name" := JStr "Patria"; "type" := JStr "movie" ]})).
  - reflexivity.
  - by vm_compute.
  - right. left.
  - intros mr [= <-]. right. left. by vm_compute.
Defined.

End SearchFacts.

Section LicenseFacts.
Import Json Exn BRASIL_PARALELO Spec Methods MoreSamples.
Context {T : Type} (lw : LicenseWorld).

(** The refusal branch never returns. *)
Lemma license_refused_fails ld : ∃ e, license_refused lw ld = inl e.
Proof.
  unfold license_refused.
  destruct (if truthy ld then _ else _) as [e|err]; [eauto|].
  destruct (dict_get_default err "message" _); eauto.
Qed.

(** X17.  [get_widevine_license] returns bytes exactly when the reply is
    an object without [errors] whose [data.drm_license_v_2.license] is
    there and decodes: the bytes are the base64 decoding of that value.
    The request carries the instance's own title id; the [track] argument
    plays no part. *)
Theorem license_granted_iff self challenge (track : Track T) lic :
  get_widevine_license lw self challenge track = inr lic ↔
  ∃ m v,
    license_post lw (endpoint_metadata self) (b64encode lw challenge)
                 (title_id self) = PostJson (JObj m) ∧
    m !! "errors" = None ∧
    json_path ["data"; "drm_license_v_2"; "license"] (JObj m) = Some v ∧
    b64decode lw v = inr lic.
Proof.
  unfold get_widevine_license. split.
  - destruct (license_post _ _ _ _) as [e|e|data]; [done..|].
    destruct (contains "errors" data) as [e|[]] eqn:Herr; [done| |].
    { by destruct (subscript data "errors"). }
    destruct (dict_get_or data "data") as [e|d] eqn:Hd; [done|].
    destruct (dict_get d "drm_license_v_2") as [e|ld] eqn:Hld; [done|].
    destruct (truthy ld) eqn:Hlt; cbn [negb].
    2:{ by destruct (license_refused_fails ld) as (e & ->). }
    destruct (contains "license" ld) as [e|[]] eqn:Hhas; [done| |].
    2:{ by destruct (license_refused_fails ld) as (e & ->). }
    destruct (subscript ld "license") as [e|v] eqn:Hv; [done|].
    intros Hdec.
    destruct (dict_get_or_is_dict _ _ _ Hd) as (m & ->).
    exists m, v. split; [done|]. split.
    { simpl in Herr. injection Herr as Herr.
      apply bool_decide_eq_false in Herr.
      destruct (m !! "errors"); [|done]. by destruct Herr. }
    split; [|done].
    destruct (dict_get_or_get_present _ _ _ _ _ Hd Hld (truthy_not_null _ Hlt))
      as [Hpd Hpl].
    apply (json_path_step _ _ _ _ _ Hpd), (json_path_step _ _ _ _ _ Hpl).
    destruct ld; try done. simpl in Hv |- *.
    destruct (m0 !! "license"); [by injection Hv as <-|done].
  - intros (m & v & -> & Herr & Hpath & Hdec).
    apply json_path_cons_inv in Hpath as (d & Hd & Hpath).
    apply json_path_cons_inv in Hpath as (ld & Hld & Hpath).
    destruct (json_path_nonempty _ _ _ Hpath) as (ml & -> & Hml).
    apply json_path_dict_get in Hd as [_ Hd], Hld as [Hld _].
    simpl contains. rewrite bool_decide_false; [|rewrite Herr; by intros [? [=]]].
    rewrite Hd, Hld. simpl truthy. rewrite (bool_decide_false _ Hml).
    cbn [negb]. simpl in Hpath |- *.
    destruct (ml !! "license") as [v'|] eqn:Hv; [|done].
    injection Hpath as ->.
    rewrite bool_decide_true by eauto. done.
Qed.



End LicenseFacts.

Section LicenseWitnesses.
Import Json Exn BRASIL_PARALELO Spec Samples Methods MoreSamples.



(** A granted license on the sample world. *)
Example license_granted_sample :
  get_widevine_license (sample_license_world (PostJson granted_reply))
    sample_service [Byte.x08; Byte.x04] (plain_track 0)
  = inr [Byte.x08; Byte.x02].
Proof. by vm_compute. Qed.

End LicenseWitnesses.

Section TitleReFacts.
Import TitleRe MoreSamples.

Lemma literal_spec p s r : literal p s = Some r ↔ s = p ++ r.
Proof.
  revert s. induction p as [|a p IH]; intros s; simpl.
  - split; congruence.
  - destruct s as [|b s]; [done|].
    case_bool_decide as Hab.
    + subst b. rewrite IH. split; congruence.
    + split; [done|]. intros [= -> _]. done.
Qed.

Lemma segment_spec s seg rest :
  segment s = (seg, rest) →
  s = seg ++ rest ∧ (slash ∉ seg) ∧ (rest = [] ∨ ∃ r, rest = slash :: r).
Proof.
  revert seg rest. induction s as [|c s IH]; intros seg rest; simpl.
  - intros [= <- <-]. repeat split; [apply not_elem_of_nil | by left].
  - case_bool_decide as Hc.
    + intros [= <- <-]. subst c.
      repeat split; [apply not_elem_of_nil | right; eauto].
    + destruct (segment s) as [seg' rest'] eqn:Hs. intros [= <- <-].
      destruct (IH _ _ eq_refl) as (-> & Hno & Hrest).
      repeat split; [|done].
      apply not_elem_of_cons. split; [congruence|done].
Qed.

Lemma segment_stops seg r :
  slash ∉ seg → segment (seg ++ slash :: r) = (seg, slash :: r).
Proof.
  induction seg as [|c seg IH]; intros Hno; simpl.
  - done.
  - apply not_elem_of_cons in Hno as [Hc Hno].
    rewrite bool_decide_false by congruence. by rewrite IH.
Qed.

Lemma title_id_at_end_spec s t :
  title_id_at_end s = Some t ↔
  length t = 24 ∧ forallb is_hex t = true ∧ (s = t ∨ s = t ++ [newline]).
Proof.
  unfold title_id_at_end. split.
  - destruct (bool_decide (length (take 24 s) = 24)) eqn:Hlen; [|done].
    destruct (forallb is_hex (take 24 s)) eqn:Hhex; [|done].
    apply bool_decide_eq_true in Hlen. simpl.
    destruct (bool_decide (drop 24 s = [])) eqn:Hd1; simpl.
    + apply bool_decide_eq_true in Hd1. intros [= <-].
      repeat split; [done..|]. left.
      by rewrite <- (take_drop 24 s) at 1; rewrite Hd1, app_nil_r.
    + destruct (bool_decide (drop 24 s = [newline])) eqn:Hd2; [|done].
      apply bool_decide_eq_true in Hd2. intros [= <-].
      repeat split; [done..|]. right.
      by rewrite <- (take_drop 24 s) at 1; rewrite Hd2.
  - intros (Hlen & Hhex & [->| ->]).
    + rewrite take_ge, drop_ge by lia. rewrite Hhex.
      rewrite !bool_decide_true by done. done.
    + rewrite take_app_length', drop_app_length' by done. rewrite Hhex.
      rewrite bool_decide_true by done.
      rewrite (bool_decide_true ([newline] = [newline])) by done.
      by rewrite orb_true_r.
Qed.

Lemma optional_s_absent r : optional_s (host_chars ++ r) = host_chars ++ r.
Proof. reflexivity. Qed.

Lemma optional_s_present r : optional_s ("s"%char :: r) = r.
Proof. reflexivity. Qed.

(** The prefix part of the expression, read off [url_form]. *)
Ltac obind := cbv beta iota delta [mbind option_bind].

Lemma url_form_spec cs t :
  url_form cs = Some t ↔
  ∃ scheme seg suf,
    (scheme = http_chars ∨ scheme = http_chars ++ ["s"%char]) ∧
    seg ≠ [] ∧ (slash ∉ seg) ∧
    length t = 24 ∧ forallb is_hex t = true ∧ (suf = [] ∨ suf = [newline]) ∧
    cs = scheme ++ host_chars ++ seg ++ media_chars ++ t ++ suf.
Proof.
  unfold url_form. split.
  - destruct (literal http_chars cs) as [s1|] eqn:H1; [|done]. obind.
    apply literal_spec in H1 as ->.
    assert (s1 = optional_s s1 ∨ s1 = "s"%char :: optional_s s1) as Hs2.
    { destruct s1 as [|c s']; [by left|]. unfold optional_s.
      case_bool_decide; [right; congruence | by left]. }
    destruct (literal host_chars (optional_s s1)) as [s3|] eqn:H3; [|done]. obind.
    apply literal_spec in H3.
    destruct (segment s3) as [seg s4] eqn:Hseg.
    apply segment_spec in Hseg as (-> & Hno & _).
    case_bool_decide as Hne; [done|].
    destruct (literal media_chars s4) as [s5|] eqn:H5; [|done]. obind.
    apply literal_spec in H5 as ->.
    intros (Hlen & Hhex & Hend)%title_id_at_end_spec.
    destruct Hs2 as [Hs1|Hs1]; rewrite Hs1, H3.
    + destruct Hend as [->| ->].
      * exists http_chars, seg, []. rewrite app_nil_r. by repeat split; auto.
      * exists http_chars, seg, [newline]. by repeat split; auto.
    + destruct Hend as [->| ->].
      * exists (http_chars ++ ["s"%char]), seg, [].
        rewrite app_nil_r, <- app_assoc. by repeat split; auto.
      * exists (http_chars ++ ["s"%char]), seg, [newline].
        rewrite <- app_assoc. by repeat split; auto.
  - intros (scheme & seg & suf & Hscheme & Hne & Hno & Hlen & Hhex & Hsuf & ->).
    assert (title_id_at_end (t ++ suf) = Some t) as Hend.
    { apply title_id_at_end_spec. repeat split; [done..|].
      destruct Hsuf as [->| ->]; [left; by rewrite app_nil_r | by right]. }
    assert (media_chars ++ t ++ suf = slash :: (tail media_chars ++ t ++ suf))
      as Hmedia by done.
    destruct Hscheme as [->| ->].
    + rewrite (proj2 (literal_spec http_chars _ _) eq_refl). obind.
      rewrite optional_s_absent.
      rewrite (proj2 (literal_spec host_chars _ _) eq_refl). obind.
      rewrite Hmedia, segment_stops by done. rewrite <- Hmedia.
      rewrite bool_decide_false by done.
      rewrite (proj2 (literal_spec media_chars _ _) eq_refl). by obind.
    + rewrite <- app_assoc.
      rewrite (proj2 (literal_spec http_chars _ _) eq_refl). obind.
      change (["s"%char] ++ ?x) with ("s"%char :: x). rewrite optional_s_present.
      rewrite (proj2 (literal_spec host_chars _ _) eq_refl). obind.
      rewrite Hmedia, segment_stops by done. rewrite <- Hmedia.
      rewrite bool_decide_false by done.
      rewrite (proj2 (literal_spec media_chars _ _) eq_refl). by obind.
Qed.

Lemma hex_is_not_h c : is_hex c = true → c ≠ "h"%char.
Proof. by intros H ->. Qed.

(** A text that starts with a hexadecimal digit has no URL prefix. *)
Lemma url_form_bare t suf :
  length t = 24 → forallb is_hex t = true → url_form (t ++ suf) = None.
Proof.
  intros Hlen Hhex. destruct t as [|c t]; [done|].
  simpl in Hhex. apply andb_true_iff in Hhex as [Hc _].
  unfold url_form. simpl.
  rewrite bool_decide_false; [done|].
  intros Heq. by apply (hex_is_not_h c).
Qed.

(** X20.  [TITLE_RE] matches a text exactly when it is 24 characters of
    [0-9a-f], optionally after
    [http(s)://plataforma.brasilparalelo.com.br/playlists/<segment>/media/]
    with a non-empty segment free of slashes, and optionally before one
    final newline; the group [title_id] is those 24 characters. *)
Theorem title_re_matches_exactly s t :
  title_re_match s = Some t ↔
  ∃ pre cs suf,
    t = string_of_list_ascii cs ∧
    list_ascii_of_string s = pre ++ cs ++ suf ∧
    length cs = 24 ∧ forallb is_hex cs = true ∧
    (suf = [] ∨ suf = [newline]) ∧
    (pre = [] ∨
     ∃ scheme seg,
       (scheme = http_chars ∨ scheme = http_chars ++ ["s"%char]) ∧
       seg ≠ [] ∧ (slash ∉ seg) ∧
       pre = scheme ++ host_chars ++ seg ++ media_chars).
Proof.
  unfold title_re_match. split.
  - destruct (url_form (list_ascii_of_string s)) as [cs|] eqn:Hurl; simpl.
    + intros [= <-].
      apply url_form_spec in Hurl
        as (scheme & seg & suf & Hscheme & Hne & Hno & Hlen & Hhex & Hsuf & Hcs).
      exists (scheme ++ host_chars ++ seg ++ media_chars), cs, suf.
      split; [done|]. split; [by rewrite Hcs, <- !app_assoc|].
      repeat split; [done..|]. right. by exists scheme, seg.
    + destruct (title_id_at_end (list_ascii_of_string s)) as [cs|] eqn:Hend;
        [|done].
      simpl. intros [= <-].
      apply title_id_at_end_spec in Hend as (Hlen & Hhex & Hs).
      destruct Hs as [Hs|Hs].
      * exists [], cs, []. rewrite app_nil_r. repeat split; auto.
      * exists [], cs, [newline]. repeat split; auto.
  - intros (pre & cs & suf & -> & Hs & Hlen & Hhex & Hsuf & Hpre).
    rewrite Hs. destruct Hpre as [->|(scheme & seg & Hscheme & Hne & Hno & ->)].
    + simpl app. rewrite url_form_bare by done.
      assert (title_id_at_end (cs ++ suf) = Some cs) as ->; [|done].
      apply title_id_at_end_spec. repeat split; [done..|].
      destruct Hsuf as [->| ->]; [left; by rewrite app_nil_r | by right].
    + assert (url_form ((scheme ++ host_chars ++ seg ++ media_chars) ++ cs ++ suf)
              = Some cs) as ->; [|done].
      apply url_form_spec. exists scheme, seg, suf.
      repeat split; [done..|]. by rewrite <- !app_assoc.
Qed.

(** The expression on sample texts. *)
Example title_re_samples :
  title_re_match sample_hex = Some sample_hex ∧
  title_re_match
    ("https://plataforma.brasilparalelo.com.br/playlists/entre-lobos/media/"
     +:+ sample_hex) = Some sample_hex ∧
  title_re_match ("0123456789ABCDEF01234567") = None ∧
  title_re_match (sample_hex +:+ "0") = None ∧
  title_re_match
    ("https://plataforma.brasilparalelo.com.br/playlists//media/" +:+ sample_hex)
    = None ∧
  title_re_match
    ("https://plataforma.brasilparalelo.com.br/playlists/a/b/media/" +:+ sample_hex)
    = None.
Proof. by vm_compute. Qed.

End TitleReFacts.
